(** * Shallow embedding of telepathy-input: the Shift popup controller
    ([src/shift_window.py], class [ShiftWindow]) and the browser probe
    ([src/browser_detector.py], class [BrowserDetector]). *)

From Stdlib Require Import String Ascii List Bool Arith Lia ZArith.
Import ListNotations.

(** ** Python string helpers used by the sources (ASCII model of [str]). *)
Module PyStr.

(** [str.lower] on ASCII characters. *)
Definition lower_char (c : ascii) : ascii :=
  let n := nat_of_ascii c in
  if (65 <=? n) && (n <=? 90) then ascii_of_nat (n + 32) else c.

Fixpoint lower (s : string) : string :=
  match s with
  | EmptyString => EmptyString
  | String c t => String (lower_char c) (lower t)
  end.

(** [str.isspace] on ASCII: \t \n \v \f \r, \x1c-\x1f and space. *)
Definition is_space (c : ascii) : bool :=
  let n := nat_of_ascii c in
  ((9 <=? n) && (n <=? 13)) || ((28 <=? n) && (n <=? 32)).

Fixpoint drop_space (l : list ascii) : list ascii :=
  match l with
  | [] => []
  | c :: t => if is_space c then drop_space t else l
  end.

(** [str.strip()]. *)
Definition strip (s : string) : string :=
  string_of_list_ascii
    (rev (drop_space (rev (drop_space (list_ascii_of_string s))))).

(** [needle in hay] for strings. *)
Fixpoint contains (needle hay : string) : bool :=
  String.prefix needle hay ||
  match hay with
  | EmptyString => false
  | String _ t => contains needle t
  end.

Definition newline : string := String (ascii_of_nat 10) EmptyString.

End PyStr.

(** ** The Tk windows the controller allocates.

    Every [tk.Tk()] is one native window, identified by its index in
    [wins]; destroyed windows stay in the list with [w_alive = false].
    An operation on a destroyed window raises [tk.TclError]: in the
    [tk] monad below it returns [None]. *)
Module Tk.

Record tkwin := mk_tkwin {
  w_alive : bool;          (* not yet destroyed *)
  w_mapped : bool;         (* deiconified (rendered) rather than withdrawn *)
  w_bg : string;           (* window.configure(bg=...) *)
  w_text : string;         (* the text of the label packed in the window *)
  w_geometry : Z * Z * Z * Z  (* width, height, x, y *)
}.

Record world := mk_world {
  wins : list tkwin;
  screen_w : Z;            (* winfo_screenwidth() *)
  screen_h : Z;            (* winfo_screenheight() *)
  site_active : bool       (* whether x.com is frontmost: what a probe reports *)
}.

Definition set_wins (l : list tkwin) (w : world) : world :=
  mk_world l (screen_w w) (screen_h w) (site_active w).
Definition set_site_active (b : bool) (w : world) : world :=
  mk_world (wins w) (screen_w w) (screen_h w) b.

Definition set_mapped (b : bool) (x : tkwin) : tkwin :=
  mk_tkwin (w_alive x) b (w_bg x) (w_text x) (w_geometry x).
Definition set_bg (bg : string) (x : tkwin) : tkwin :=
  mk_tkwin (w_alive x) (w_mapped x) bg (w_text x) (w_geometry x).
Definition set_text (t : string) (x : tkwin) : tkwin :=
  mk_tkwin (w_alive x) (w_mapped x) (w_bg x) t (w_geometry x).
Definition set_geometry (g : Z * Z * Z * Z) (x : tkwin) : tkwin :=
  mk_tkwin (w_alive x) (w_mapped x) (w_bg x) (w_text x) g.
Definition kill (x : tkwin) : tkwin :=
  mk_tkwin false false (w_bg x) (w_text x) (w_geometry x).

Fixpoint upd_nth {A} (i : nat) (f : A -> A) (l : list A) : list A :=
  match l, i with
  | [], _ => []
  | x :: t, O => f x :: t
  | x :: t, S j => x :: upd_nth j f t
  end.

(** Tk calls: a state monad over [world] whose failure is [TclError]. *)
Definition tk (A : Type) : Type := world -> option (A * world).
Definition ret {A} (a : A) : tk A := fun w => Some (a, w).
Definition bind {A B} (m : tk A) (k : A -> tk B) : tk B :=
  fun w => match m w with Some (a, w') => k a w' | None => None end.
Local Notation "x <- m ;; k" := (bind m (fun x => k))
  (at level 61, m at next level, right associativity).

(** The window [i] itself, [TclError] once it is destroyed. *)
Definition window_of (i : nat) : tk tkwin := fun w =>
  match nth_error (wins w) i with
  | Some x => if w_alive x then Some (x, w) else None
  | None => None
  end.

Definition modify (i : nat) (f : tkwin -> tkwin) : tk unit :=
  _ <- window_of i ;; fun w => Some (tt, set_wins (upd_nth i f (wins w)) w).

Definition winfo_screenwidth (i : nat) : tk Z :=
  _ <- window_of i ;; fun w => Some (screen_w w, w).
Definition winfo_screenheight (i : nat) : tk Z :=
  _ <- window_of i ;; fun w => Some (screen_h w, w).
Definition geometry (i : nat) (g : Z * Z * Z * Z) : tk unit :=
  modify i (set_geometry g).
Definition withdraw (i : nat) : tk unit := modify i (set_mapped false).
Definition deiconify (i : nat) : tk unit := modify i (set_mapped true).
Definition destroy (i : nat) : tk unit := modify i kill.
(** [window.update()]: processes pending Tk events; raises once destroyed. *)
Definition update (i : nat) : tk unit := _ <- window_of i ;; ret tt.
(** [attributes('-topmost')], [lift()] and [focus_force()] only need a
    live window here. *)
Definition raise_window (i : nat) : tk unit := _ <- window_of i ;; ret tt.

(** A fresh [tk.Tk()] root: alive and mapped, default look. *)
Definition fresh_tk : tkwin :=
  mk_tkwin true true EmptyString EmptyString (200%Z, 200%Z, 0%Z, 0%Z).

(** [tk.Tk()]: never fails, returns the new window's id. *)
Definition new_tk : tk nat := fun w =>
  Some (length (wins w), set_wins (wins w ++ [fresh_tk]) w).

Definition add_label (i : nat) (t : string) : tk unit := modify i (set_text t).
Definition configure_bg (i : nat) (bg : string) : tk unit := modify i (set_bg bg).

Definition live_count (w : world) : nat := length (filter w_alive (wins w)).

(** Whether window [i] exists and is not destroyed. *)
Definition alive_at (w : world) (i : nat) : bool :=
  match nth_error (wins w) i with Some x => w_alive x | None => false end.

(** Whether window [i] exists and is rendered. *)
Definition mapped_at (w : world) (i : nat) : bool :=
  match nth_error (wins w) i with Some x => w_mapped x | None => false end.

(** Every window has the given background and label text. *)
Definition styled (bg text : string) (w : world) : Prop :=
  forall j x, nth_error (wins w) j = Some x -> w_bg x = bg /\ w_text x = text.

(** A relation between the world before and after every successful run. *)
Definition tk_rel {A} (R : world -> world -> Prop) (m : tk A) : Prop :=
  forall w a w', m w = Some (a, w') -> R w w'.

(** The program fails only when window [i] is destroyed. *)
Definition fails_dead {A} (i : nat) (m : tk A) : Prop :=
  forall w, m w = None -> alive_at w i = false.

(** No window allocated, none destroyed. *)
Definition same_shape (w w' : world) : Prop :=
  length (wins w') = length (wins w) /\ forall j, alive_at w' j = alive_at w j.

End Tk.

(** ** Class [ShiftWindow] (src/shift_window.py). *)
Module Controller.
Import Tk.

Local Notation "x <- m ;; k" := (Tk.bind m (fun x => k))
  (at level 61, m at next level, right associativity).

(** A [threading.Timer(2.0, schedule_window_close)] that was started and
    neither cancelled nor run yet: its id and its deadline in ms. *)
Record timer := mk_timer { t_id : nat; t_deadline : nat }.

(** The fields of [ShiftWindow] ([running] is left out: it stays [True]
    while the update loop runs), with the Tk windows, the started timers
    and the clock. *)
Record state := mk_state {
  window : option nat;
  shift_pressed : bool;
  window_timer : option nat;
  event_queue : list string;
  window_visible : bool;
  window_created : bool;
  tk_world : world;
  pending : list timer;
  next_timer : nat;
  clock : nat
}.

Definition set_window o s := mk_state o (shift_pressed s) (window_timer s)
  (event_queue s) (window_visible s) (window_created s) (tk_world s)
  (pending s) (next_timer s) (clock s).
Definition set_shift_pressed b s := mk_state (window s) b (window_timer s)
  (event_queue s) (window_visible s) (window_created s) (tk_world s)
  (pending s) (next_timer s) (clock s).
Definition set_window_timer o s := mk_state (window s) (shift_pressed s) o
  (event_queue s) (window_visible s) (window_created s) (tk_world s)
  (pending s) (next_timer s) (clock s).
Definition set_event_queue q s := mk_state (window s) (shift_pressed s)
  (window_timer s) q (window_visible s) (window_created s) (tk_world s)
  (pending s) (next_timer s) (clock s).
Definition set_window_visible b s := mk_state (window s) (shift_pressed s)
  (window_timer s) (event_queue s) b (window_created s) (tk_world s)
  (pending s) (next_timer s) (clock s).
Definition set_window_created b s := mk_state (window s) (shift_pressed s)
  (window_timer s) (event_queue s) (window_visible s) b (tk_world s)
  (pending s) (next_timer s) (clock s).
Definition set_tk_world w s := mk_state (window s) (shift_pressed s)
  (window_timer s) (event_queue s) (window_visible s) (window_created s) w
  (pending s) (next_timer s) (clock s).
Definition set_timers p n s := mk_state (window s) (shift_pressed s)
  (window_timer s) (event_queue s) (window_visible s) (window_created s)
  (tk_world s) p n (clock s).
Definition set_clock c s := mk_state (window s) (shift_pressed s)
  (window_timer s) (event_queue s) (window_visible s) (window_created s)
  (tk_world s) (pending s) (next_timer s) c.

(** [__init__], with the screen and browser situation of [w]. *)
Definition init (w : world) : state :=
  mk_state None false None [] false false w [] 0 0.

Definition ev_create : string := "create_window".
Definition ev_hide : string := "hide_window".
Definition ev_close : string := "close_window".

Definition window_bg : string := "#2c3e50".
Definition label_text : string :=
  ("Shift Key" ++ PyStr.newline ++ "Detected!")%string.

(** Bottom-right geometry of [create_window_main_thread] and [show_window]. *)
Definition corner (sw sh : Z) : Z * Z * Z * Z :=
  (200%Z, 80%Z, (sw - 200 - 10)%Z, (sh - 80 - 10)%Z).

(** [create_window_main_thread]: the Tk calls in source order. *)
Definition create_window_main_thread : tk nat :=
  window <- new_tk ;;
  _ <- configure_bg window window_bg ;;
  screen_width <- winfo_screenwidth window ;;
  screen_height <- winfo_screenheight window ;;
  _ <- geometry window (corner screen_width screen_height) ;;
  _ <- add_label window label_text ;;
  _ <- withdraw window ;;
  _ <- deiconify window ;;
  _ <- raise_window window ;;
  ret window.

(** [threading.Timer.cancel()]: a timer that already ran is unaffected. *)
Definition cancel (t : nat) (p : list timer) : list timer :=
  filter (fun x => negb (t_id x =? t)) p.

(** [start_timer]. *)
Definition start_timer (s : state) : state :=
  let p := match window_timer s with
           | Some t => cancel t (pending s)
           | None => pending s
           end in
  let t := next_timer s in
  set_window_timer (Some t)
    (set_timers (p ++ [mk_timer t (clock s + 2000)]) (S t) s).

(** [schedule_window_close], run by a timer thread. *)
Definition schedule_window_close (s : state) : state :=
  set_event_queue (event_queue s ++ [ev_hide]) s.

(** [hide_window]. *)
Definition hide_window (s : state) : state :=
  let s1 :=
    match window s with
    | Some i =>
        if window_visible s then
          match withdraw i (tk_world s) with
          | Some (_, w') => set_window_visible false (set_tk_world w' s)
          | None => s                          (* except tk.TclError: pass *)
          end
        else s
    | None => s
    end in
  set_window_timer None s1.

(** [close_window]. *)
Definition close_window (s : state) : state :=
  let s1 :=
    match window s with
    | Some i =>
        let w' := match destroy i (tk_world s) with
                  | Some (_, w') => w'
                  | None => tk_world s       (* except tk.TclError: pass *)
                  end in
        set_window_visible false (set_window_created false
          (set_window None (set_tk_world w' s)))
    | None => s
    end in
  set_window_timer None s1.

(** The [try] body of [show_window]. *)
Definition show_calls (i : nat) : tk unit :=
  screen_width <- winfo_screenwidth i ;;
  screen_height <- winfo_screenheight i ;;
  _ <- geometry i (corner screen_width screen_height) ;;
  _ <- raise_window i ;;
  _ <- deiconify i ;;
  raise_window i.

(** [show_window]. *)
Definition show_window (s : state) : state :=
  match window s with
  | Some i =>
      if negb (window_visible s) then
        match show_calls i (tk_world s) with
        | Some (_, w') => set_window_visible true (set_tk_world w' s)
        | None =>                             (* except tk.TclError *)
            set_window_visible false (set_window_created false
              (set_window None s))
        end
      else s
  | None => s
  end.

(** pynput keys: a [Key] member has a [name]; other keys are printed. *)
Inductive key :=
| KeyNamed (name : string)
| KeyOther (repr : string).

Definition key_name (k : key) : string :=
  match k with KeyNamed n => n | KeyOther r => r end.

Definition is_shift (k : key) : bool := PyStr.contains "shift" (key_name k).

(** [on_shift_press]. *)
Definition on_shift_press (k : key) (s : state) : state :=
  if is_shift k && negb (shift_pressed s) then
    set_event_queue (event_queue s ++ [ev_create]) (set_shift_pressed true s)
  else s.

(** [on_shift_release]. *)
Definition on_shift_release (k : key) (s : state) : state :=
  if is_shift k then set_shift_pressed false s else s.

(** The dispatch on one event popped by the update loop. *)
Definition apply_event (event : string) (s : state) : state :=
  if String.eqb event ev_create then
    if negb (window_created s) then
      match create_window_main_thread (tk_world s) with
      | Some (i, w') =>
          start_timer (set_window_created true (set_window_visible true
            (set_window (Some i) (set_tk_world w' s))))
      | None => s                      (* a fresh window never fails *)
      end
    else if negb (window_visible s) then start_timer (show_window s)
    else start_timer s
  else if String.eqb event ev_hide then hide_window s
  else if String.eqb event ev_close then close_window s
  else s.

(** One iteration of the [while self.running] loop of [start_monitoring]:
    one [get_nowait], then [window.update()]. *)
Definition loop_tick (s : state) : state :=
  let s1 := match event_queue s with
            | [] => s                           (* queue.Empty: pass *)
            | e :: q => apply_event e (set_event_queue q s)
            end in
  match window s1 with
  | Some i =>
      match update i (tk_world s1) with
      | Some _ => s1
      | None => set_window None s1              (* Window was closed *)
      end
  | None => s1
  end.

(** What can happen next: a key event from the listener thread, an
    iteration of the update loop, time passing, a started timer running
    once its deadline is reached, a window destroyed from outside the
    program, or the browser situation changing. *)
Inductive action :=
| Press (k : key)
| Release (k : key)
| Tick
| Wait (ms : nat)
| Fire (t : nat)
| ExtClose (i : nat)
| SetSite (b : bool).

Definition fire (t : nat) (s : state) : state :=
  match find (fun x => t_id x =? t) (pending s) with
  | Some x =>
      if t_deadline x <=? clock s then
        schedule_window_close (set_timers (cancel t (pending s)) (next_timer s) s)
      else s
  | None => s
  end.

Definition step (a : action) (s : state) : state :=
  match a with
  | Press k => on_shift_press k s
  | Release k => on_shift_release k s
  | Tick => loop_tick s
  | Wait ms => set_clock (clock s + ms) s
  | Fire t => fire t s
  | ExtClose i =>
      match destroy i (tk_world s) with
      | Some (_, w') => set_tk_world w' s
      | None => s
      end
  | SetSite b => set_tk_world (set_site_active b (tk_world s)) s
  end.

Definition run (tr : list action) (s : state) : state :=
  fold_left (fun s a => step a s) tr s.

Inductive reachable : state -> Prop :=
| reach_init (w : world) : wins w = [] -> reachable (init w)
| reach_step (a : action) (s : state) : reachable s -> reachable (step a s).

(** The lifecycle state as the loop's dispatch reads it. *)
Inductive lifecycle := Absent | Hidden | Visible.

Definition lifecycle_of (s : state) : lifecycle :=
  if negb (window_created s) then Absent
  else if window_visible s then Visible else Hidden.

(** The window [create_window_main_thread] leaves behind. *)
Definition created_win (sw sh : Z) : tkwin :=
  mk_tkwin true true window_bg label_text (corner sw sh).

(** Every live window is the one [self.window] points to, and
    [window_created = False] only when [self.window is None]. *)
Definition inv (s : state) : Prop :=
  (forall j, alive_at (tk_world s) j = true -> window s = Some j) /\
  (window_created s = false -> window s = None).

(** How many windows were ever allocated. *)
Definition nwins (s : state) : nat := length (wins (tk_world s)).

(** [start_timer] on [s] gave [s']: the timer [self.window_timer] held is
    cancelled and exactly one new timer, due in 2000 ms, is started. *)
Definition rearmed (s s' : state) : Prop :=
  window_timer s' = Some (next_timer s) /\
  next_timer s' = S (next_timer s) /\
  pending s' = (match window_timer s with
                | Some t => cancel t (pending s)
                | None => pending s
                end) ++ [mk_timer (next_timer s) (clock s + 2000)].

(** The event the loop applies in an action, and the events the action
    appends to the queue. *)
Definition applied_by (a : action) (s : state) : list string :=
  match a with Tick => firstn 1 (event_queue s) | _ => [] end.

Definition enqueued_by (a : action) (s : state) : list string :=
  match a with
  | Tick => []
  | _ => skipn (length (event_queue s)) (event_queue (step a s))
  end.

Fixpoint applied_run (tr : list action) (s : state) : list string :=
  match tr with
  | [] => []
  | a :: tr' => applied_by a s ++ applied_run tr' (step a s)
  end.

Fixpoint enqueued_run (tr : list action) (s : state) : list string :=
  match tr with
  | [] => []
  | a :: tr' => enqueued_by a s ++ enqueued_run tr' (step a s)
  end.

(** No step of the world breaks [styled] for the controller's look. *)
Definition keeps_style (w w' : world) : Prop :=
  styled window_bg label_text w -> styled window_bg label_text w'.

(** What [start_monitoring] does when the loop is left: the
    [except KeyboardInterrupt] handler and then the [finally] block each
    run [if self.window: self.close_window()]. *)
Definition close_if_window (s : state) : state :=
  match window s with Some _ => close_window s | None => s end.

Definition shutdown (s : state) : state := close_if_window (close_if_window s).

(** Started timers have distinct ids, all below [next_timer]. *)
Definition timers_ok (s : state) : Prop :=
  NoDup (map t_id (pending s)) /\ Forall (fun x => t_id x < next_timer s) (pending s).

(** While [self.window] is alive, [window_visible] says whether it is
    rendered. *)
Definition visible_ok (s : state) : Prop :=
  forall i, window s = Some i -> alive_at (tk_world s) i = true ->
  window_visible s = mapped_at (tk_world s) i.

(** Concrete scenario data. *)
Definition screen0 : world := mk_world [] 1440%Z 900%Z false.
Definition shift : key := KeyNamed "shift".

End Controller.

(** ** Class [BrowserDetector] (src/browser_detector.py).

    Every [subprocess.run(['osascript', '-e', script], ...)] goes to an
    oracle that answers the script with a completed process or an
    exception; a computation also records the scripts it ran. *)
Module Browser.

Inductive exn := TimeoutExpired | CalledProcessError | OSError.

Inductive outcome :=
| Completed (returncode : Z) (stdout stderr : string)
| Raised (e : exn).

(** The AppleScripts of the module: the all-tabs scan of one browser
    ([is_x_com_open_mac]), the frontmost-tabs scan of one browser
    ([is_browser_frontmost_with_x_com]), the frontmost-process query
    ([get_frontmost_application]) and the window-title query
    ([get_active_window_title_mac]). *)
Inductive script :=
| AllTabs (browser : string)
| FrontTabs (browser : string)
| FrontApp
| FrontTitle.

Definition oracle := script -> outcome.

Inductive result (A : Type) := Ret (a : A) | Raise (e : exn).
Arguments Ret {A} a.
Arguments Raise {A} e.

Definition probe (A : Type) : Type := oracle -> list script * result A.

Definition ret {A} (a : A) : probe A := fun _ => ([], Ret a).
Definition raise {A} (e : exn) : probe A := fun _ => ([], Raise e).
Definition bind {A B} (m : probe A) (k : A -> probe B) : probe B := fun o =>
  let (l1, r) := m o in
  match r with
  | Ret a => let (l2, r2) := k a o in (l1 ++ l2, r2)
  | Raise e => (l1, Raise e)
  end.
(** [try m except ...: h]. *)
Definition catch {A} (m : probe A) (h : exn -> probe A) : probe A := fun o =>
  let (l1, r) := m o in
  match r with
  | Ret a => (l1, Ret a)
  | Raise e => let (l2, r2) := h e o in (l1 ++ l2, r2)
  end.
Local Notation "x <- m ;; k" := (bind m (fun x => k))
  (at level 61, m at next level, right associativity).

Record completed := mk_completed { returncode : Z; stdout : string; stderr : string }.

Definition osascript (sc : script) : probe completed := fun o =>
  ([sc], match o sc with
         | Completed rc out err => Ret (mk_completed rc out err)
         | Raised e => Raise e
         end).

(** [except (subprocess.TimeoutExpired, subprocess.CalledProcessError)]. *)
Definition timeout_or_cpe (e : exn) : bool :=
  match e with TimeoutExpired | CalledProcessError => true | OSError => false end.

Record detector := mk_detector { system : string }.

(** A per-browser all-tabs query that failed with a caught exception or
    did not print [true]. *)
Definition negative_query (oc : outcome) : bool :=
  match oc with
  | Raised e => timeout_or_cpe e
  | Completed _ out _ => negb (String.eqb (PyStr.strip out) "true")
  end.

(** The query raised some exception. *)
Definition raised (oc : outcome) : bool :=
  match oc with Raised _ => true | Completed _ _ _ => false end.

(** The query was cut off by its timeout or raised [CalledProcessError]. *)
Definition timed_out_or_failed (oc : outcome) : bool :=
  match oc with Raised e => timeout_or_cpe e | Completed _ _ _ => false end.

Definition darwin (d : detector) : bool := String.eqb (system d) "Darwin".

(** The keys of the [browsers] / [browser_scripts] dicts, in order. *)
Definition script_browsers : list string := ["Safari"; "Google Chrome"; "Arc"]%string.

Definition browser_apps : list string :=
  ["Safari"; "Google Chrome"; "Arc"; "Firefox"; "Microsoft Edge";
   "Brave Browser"; "Opera"; "Vivaldi"]%string.

(** The loop of [is_x_com_open_mac] over the remaining browsers. *)
Fixpoint scan_browsers (bs : list string) : probe (bool * option string) :=
  match bs with
  | [] => ret (false, None)
  | browser_name :: rest =>
      r <- catch
             (result <- osascript (AllTabs browser_name) ;;
              ret (if String.eqb (PyStr.strip (stdout result)) "true"
                   then Some (true, Some browser_name) else None))
             (fun e => if timeout_or_cpe e then ret None else raise e) ;;
      match r with
      | Some v => ret v
      | None => scan_browsers rest
      end
  end.

Definition is_x_com_open_mac (d : detector) : probe (bool * option string) :=
  scan_browsers script_browsers.

Definition get_active_window_title_mac (d : detector) : probe string :=
  catch (result <- osascript FrontTitle ;; ret (PyStr.strip (stdout result)))
        (fun _ => ret EmptyString).

Definition x_title (title : string) : bool :=
  PyStr.contains "x.com" (PyStr.lower title) || PyStr.contains " / X" title
  || PyStr.contains "(@" title.

Definition is_browser_active_with_x (d : detector) : probe bool :=
  if darwin d then
    title <- get_active_window_title_mac d ;; ret (x_title title)
  else ret false.

Definition get_frontmost_application (d : detector) : probe (option string) :=
  if negb (darwin d) then ret None
  else catch
         (result <- osascript FrontApp ;;
          if (returncode result =? 0)%Z
          then ret (Some (PyStr.strip (stdout result)))
          else ret None)
         (fun _ => ret None).

Definition is_browser_frontmost_with_x_com (d : detector)
  : probe (bool * option string) :=
  if negb (darwin d) then ret (false, None)
  else
    frontmost_app <- get_frontmost_application d ;;
    match frontmost_app with
    | None => ret (false, None)
    | Some app =>
      if String.eqb app EmptyString then ret (false, None)
      else
        match find (fun b => PyStr.contains (PyStr.lower b) (PyStr.lower app))
                   browser_apps with
        | None => ret (false, None)
        | Some frontmost_browser =>
          match find (fun n => PyStr.contains (PyStr.lower n)
                                 (PyStr.lower frontmost_browser))
                     script_browsers with
          | None =>
              title <- get_active_window_title_mac d ;;
              ret (x_title title, Some frontmost_browser)
          | Some n =>
              catch
                (result <- osascript (FrontTabs n) ;;
                 ret (String.eqb (PyStr.strip (stdout result)) "true",
                      Some frontmost_browser))
                (fun e => if timeout_or_cpe e
                          then ret (false, Some frontmost_browser)
                          else raise e)
          end
        end
    end.

(** An oracle in which every probe query fails or answers [false]. *)
Definition failing_oracle (sc : script) : outcome :=
  match sc with
  | AllTabs b => if String.eqb b "Safari" then Completed 0 "false" EmptyString
                 else Raised TimeoutExpired
  | FrontTabs _ => Raised CalledProcessError
  | FrontApp => Completed 0 "Google Chrome" EmptyString
  | FrontTitle => Raised TimeoutExpired
  end.

End Browser.

(** ** [check_mac_permissions] and [main] (src/main.py; the same code
    closes src/shift_window.py). *)
Module Main.

(** [SystemExit] is what [sys.exit] raises; a bare [except:] catches it. *)
Inductive pyexn := SystemExit (code : Z) | Error.

Inductive result (A : Type) := Ret (a : A) | Raise (e : pyexn).
Arguments Ret {A} a.
Arguments Raise {A} e.

(** The machine [main] runs on. *)
Record env := mk_env {
  platform_system : string;       (* platform.system() *)
  listener_starts : bool;         (* test_listener.start() does not raise *)
  dialog : option bool            (* messagebox.askokcancel: Some answer,
                                     None when the GUI raises *)
}.

Definition check_mac_permissions (e : env) : result bool :=
  if String.eqb (platform_system e) "Darwin" then
    if listener_starts e then Ret true
    else
      (* try: ... askokcancel ...; if not result: sys.exit(0) *)
      let attempt :=
        match dialog e with
        | None => Raise Error
        | Some ok => if ok then Ret tt else Raise (SystemExit 0)
        end in
      match attempt with
      | Ret _ => Ret false
      | Raise _ => Ret false                  (* except: pass *)
      end
  else Ret true.

(** How the process ends up.  [main] runs only once the module-level
    [from pynput import keyboard] has succeeded, so its own
    [import pynput] check always passes. *)
Inductive main_outcome :=
| Exited (code : Z)          (* an uncaught SystemExit *)
| Returned                   (* main() returns after the permission hint *)
| Monitoring.                (* ShiftWindow().start_monitoring() is entered *)

Definition main (e : env) : main_outcome :=
  match check_mac_permissions e with
  | Ret true => Monitoring
  | Ret false => Returned
  | Raise (SystemExit c) => Exited c
  | Raise Error => Exited 1
  end.

End Main.

(** ** Facts about the Tk calls. *)
Module TkFacts.
Import Tk.

Lemma nth_error_upd_nth {A} (i : nat) (f : A -> A) (l : list A) (j : nat) :
  nth_error (upd_nth i f l) j =
  if Nat.eqb i j then option_map f (nth_error l j) else nth_error l j.
Proof.
  revert i j; induction l as [|x t IH]; intros [|i] [|j]; simpl; auto;
    destruct (_ =? _); reflexivity.
Qed.

Lemma length_upd_nth {A} (i : nat) (f : A -> A) (l : list A) :
  length (upd_nth i f l) = length l.
Proof. revert i; induction l; intros [|i]; simpl; auto. Qed.

Lemma upd_nth_last {A} (f : A -> A) (l : list A) (x : A) :
  upd_nth (length l) f (l ++ [x]) = l ++ [f x].
Proof. induction l as [|y t IH]; simpl; [reflexivity | now rewrite IH]. Qed.

Lemma nth_error_last {A} (l : list A) (x : A) :
  nth_error (l ++ [x]) (length l) = Some x.
Proof. induction l; simpl; auto. Qed.

Lemma window_of_dead (i : nat) (w : world) :
  alive_at w i = false -> window_of i w = None.
Proof.
  unfold alive_at, window_of; destruct (nth_error (wins w) i) as [x|];
    [intros H; now rewrite H | reflexivity].
Qed.

Lemma window_of_none (i : nat) (w : world) :
  window_of i w = None -> alive_at w i = false.
Proof.
  unfold alive_at, window_of; destruct (nth_error (wins w) i) as [x|]; auto.
  destruct (w_alive x); congruence.
Qed.

Lemma window_of_some (i : nat) (w w' : world) (x : tkwin) :
  window_of i w = Some (x, w') -> w' = w /\ nth_error (wins w) i = Some x
                                  /\ w_alive x = true.
Proof.
  unfold window_of; destruct (nth_error (wins w) i) as [y|]; [|congruence].
  destruct (w_alive y) eqn:E; intros H; inversion H; subst; auto.
Qed.

Lemma modify_some (i : nat) (f : tkwin -> tkwin) (w w' : world) (u : unit) :
  modify i f w = Some (u, w') -> w' = set_wins (upd_nth i f (wins w)) w
                                 /\ alive_at w i = true.
Proof.
  unfold modify, Tk.bind. destruct (window_of i w) as [[x w1]|] eqn:E;
    [|congruence].
  apply window_of_some in E as (-> & Hn & Ha). intros H; inversion H.
  unfold alive_at; rewrite Hn; auto.
Qed.

Lemma modify_none (i : nat) (f : tkwin -> tkwin) (w : world) :
  modify i f w = None -> alive_at w i = false.
Proof.
  unfold modify, Tk.bind. destruct (window_of i w) as [[x w1]|] eqn:E.
  - congruence.
  - intros _; now apply window_of_none.
Qed.

Lemma alive_at_upd (i j : nat) (f : tkwin -> tkwin) (w : world) :
  alive_at (set_wins (upd_nth i f (wins w)) w) j =
  if Nat.eqb i j then
    match nth_error (wins w) j with Some x => w_alive (f x) | None => false end
  else alive_at w j.
Proof.
  unfold alive_at; simpl; rewrite nth_error_upd_nth.
  destruct (Nat.eqb i j), (nth_error (wins w) j); reflexivity.
Qed.

Lemma tk_rel_bind {A B} (R : world -> world -> Prop) (m : tk A) (k : A -> tk B) :
  (forall w1 w2 w3, R w1 w2 -> R w2 w3 -> R w1 w3) ->
  tk_rel R m -> (forall a, tk_rel R (k a)) -> tk_rel R (Tk.bind m k).
Proof.
  intros Htr Hm Hk w b w'. unfold Tk.bind.
  destruct (m w) as [[a w1]|] eqn:E; [|congruence].
  intros H; eapply Htr; [eapply Hm; eauto | eapply Hk; eauto].
Qed.

Lemma tk_rel_window_of (R : world -> world -> Prop) (i : nat) :
  (forall w, R w w) -> tk_rel R (window_of i).
Proof. intros Hr w x w' H; apply window_of_some in H as (-> & _); auto. Qed.

Lemma tk_rel_ret {A} (R : world -> world -> Prop) (a : A) :
  (forall w, R w w) -> tk_rel R (ret a).
Proof. intros Hr w b w' H; inversion H; auto. Qed.

Lemma fails_dead_bind {A B} (i : nat) (m : tk A) (k : A -> tk B) :
  fails_dead i m -> tk_rel same_shape m -> (forall a, fails_dead i (k a)) ->
  fails_dead i (Tk.bind m k).
Proof.
  intros Hm Hr Hk w. unfold Tk.bind.
  destruct (m w) as [[a w1]|] eqn:E.
  - intros H. apply Hk in H. rewrite <- (proj2 (Hr _ _ _ E) i); exact H.
  - intros _; now apply Hm.
Qed.

Lemma same_shape_modify (i : nat) (f : tkwin -> tkwin) :
  (forall x, w_alive (f x) = w_alive x) -> tk_rel same_shape (modify i f).
Proof.
  intros Hf w u w' H; apply modify_some in H as [-> _].
  split; [apply length_upd_nth|]; intros j.
  rewrite alive_at_upd. destruct (Nat.eqb_spec i j) as [<-|]; [|reflexivity].
  unfold alive_at; destruct (nth_error (wins w) i); auto.
Qed.

Lemma same_shape_trans (w1 w2 w3 : world) :
  same_shape w1 w2 -> same_shape w2 w3 -> same_shape w1 w3.
Proof.
  unfold same_shape; intros [L1 H1] [L2 H2]; split; [congruence|].
  intros j; rewrite H2; auto.
Qed.

Lemma same_shape_refl (w : world) : same_shape w w.
Proof. split; reflexivity. Qed.

End TkFacts.

(** ** Facts about the controller's operations. *)
Module ControllerFacts.
Import Tk TkFacts Controller.

Lemma window_of_at_last (l : list tkwin) (x : tkwin) sw sh b :
  w_alive x = true ->
  window_of (length l) (mk_world (l ++ [x]) sw sh b) =
  Some (x, mk_world (l ++ [x]) sw sh b).
Proof. intros H; unfold window_of; simpl; rewrite nth_error_last, H; reflexivity. Qed.

Lemma modify_at_last (f : tkwin -> tkwin) (l : list tkwin) (x : tkwin) sw sh b :
  w_alive x = true ->
  modify (length l) f (mk_world (l ++ [x]) sw sh b) =
  Some (tt, mk_world (l ++ [f x]) sw sh b).
Proof.
  intros H; unfold modify, Tk.bind; rewrite window_of_at_last by exact H.
  simpl; now rewrite upd_nth_last.
Qed.

Lemma create_window_main_thread_eq (w : world) :
  create_window_main_thread w =
  Some (length (wins w),
        set_wins (wins w ++ [created_win (screen_w w) (screen_h w)]) w).
Proof.
  destruct w as [l sw sh b].
  cbv [create_window_main_thread Tk.bind new_tk configure_bg winfo_screenwidth
       winfo_screenheight geometry add_label withdraw deiconify raise_window
       Tk.ret set_wins wins screen_w screen_h site_active].
  repeat first
    [ rewrite modify_at_last by reflexivity; cbv beta iota
    | rewrite window_of_at_last by reflexivity; cbv beta iota ].
  reflexivity.
Qed.

Lemma tk_rel_get (R : world -> world -> Prop) {A} (g : world -> A) :
  (forall w, R w w) -> tk_rel R (fun w => Some (g w, w)).
Proof. intros Hr w a w' H; inversion H; auto. Qed.

Ltac rel_tac trans refl modl :=
  repeat match goal with
  | |- tk_rel _ (Tk.bind _ _) => apply tk_rel_bind; [exact trans | | intro]
  | |- tk_rel _ (window_of _) => apply tk_rel_window_of; exact refl
  | |- tk_rel _ (Tk.ret _) => apply tk_rel_ret; exact refl
  | |- tk_rel _ (modify _ _) => apply modl; intros; repeat split
  | |- tk_rel _ (fun w => Some (@?g w, w)) => apply tk_rel_get; exact refl
  end.

Ltac same_shape_tac := rel_tac same_shape_trans same_shape_refl same_shape_modify.

Ltac fails_dead_tac :=
  repeat match goal with
  | |- fails_dead _ (Tk.bind _ _) =>
      apply fails_dead_bind; [ | same_shape_tac | intro]
  | |- fails_dead _ (window_of _) => intros ?; apply window_of_none
  | |- fails_dead _ (modify _ _) => intros ?; apply modify_none
  | |- fails_dead _ (Tk.ret _) => intros ? H; discriminate H
  | |- fails_dead _ (fun w => Some _) => intros ? H; discriminate H
  end.

Lemma show_calls_same_shape (i : nat) : tk_rel same_shape (show_calls i).
Proof.
  unfold show_calls, winfo_screenwidth, winfo_screenheight, geometry,
    raise_window, deiconify; same_shape_tac.
Qed.

Lemma show_calls_fails_dead (i : nat) : fails_dead i (show_calls i).
Proof.
  unfold show_calls, winfo_screenwidth, winfo_screenheight, geometry,
    raise_window, deiconify; fails_dead_tac.
Qed.

Lemma withdraw_same_shape (i : nat) : tk_rel same_shape (withdraw i).
Proof. apply same_shape_modify; reflexivity. Qed.

Lemma update_same_shape (i : nat) : tk_rel same_shape (update i).
Proof. unfold update; same_shape_tac. Qed.

Lemma update_fails_dead (i : nat) : fails_dead i (update i).
Proof. unfold update; fails_dead_tac. Qed.

Lemma destroy_alive (i j : nat) (w w' : world) (u : unit) :
  destroy i w = Some (u, w') -> alive_at w' j = (negb (Nat.eqb i j) && alive_at w j).
Proof.
  unfold destroy; intros H; apply modify_some in H as [-> _].
  rewrite alive_at_upd; destruct (Nat.eqb i j); [|reflexivity].
  now destruct (nth_error (wins w) j).
Qed.

Lemma destroy_length (i : nat) (w w' : world) (u : unit) :
  destroy i w = Some (u, w') -> length (wins w') = length (wins w).
Proof.
  unfold destroy; intros H; apply modify_some in H as [-> _].
  apply length_upd_nth.
Qed.

(** *** The invariant [inv] is kept by every operation. *)

Lemma inv_start_timer (s : state) : inv s -> inv (start_timer s).
Proof. exact (fun H => H). Qed.

Lemma inv_show_window (s : state) : inv s -> inv (show_window s).
Proof.
  unfold show_window; destruct (window s) as [i|] eqn:Hw;
    intros [H1 H2]; [|split; auto].
  destruct (negb (window_visible s)); [|split; auto].
  destruct (show_calls i (tk_world s)) as [[u w']|] eqn:E.
  - pose proof (show_calls_same_shape i _ _ _ E) as [_ Ha].
    split; simpl; [intros j Hj; rewrite Ha in Hj|]; auto.
  - pose proof (show_calls_fails_dead i _ E) as Hd.
    split; simpl; [|reflexivity]. intros j Hj.
    rewrite (H1 j Hj) in Hw; inversion Hw; subst; congruence.
Qed.

Lemma inv_hide_window (s : state) : inv s -> inv (hide_window s).
Proof.
  intros Hi; unfold hide_window.
  destruct (window s) as [i|]; [|exact Hi].
  destruct (window_visible s); [|exact Hi].
  destruct (withdraw i (tk_world s)) as [[u w']|] eqn:E; [|exact Hi].
  destruct Hi as [H1 H2].
  pose proof (withdraw_same_shape i _ _ _ E) as [_ Ha].
  split; simpl; [intros j Hj; rewrite Ha in Hj; auto | exact H2].
Qed.

Lemma inv_close_window (s : state) : inv s -> inv (close_window s).
Proof.
  unfold close_window; destruct (window s) as [i|] eqn:Hw;
    intros [H1 H2]; [|split; auto].
  split; simpl; [|reflexivity]. intros j Hj.
  destruct (destroy i (tk_world s)) as [[u w']|] eqn:E; simpl in Hj.
  - rewrite (destroy_alive i j _ _ _ E) in Hj.
    apply andb_prop in Hj as [Hne Hj]. rewrite (H1 j Hj) in Hw.
    inversion Hw; subst; now rewrite Nat.eqb_refl in Hne.
  - unfold destroy in E; apply modify_none in E.
    rewrite (H1 j Hj) in Hw; inversion Hw; subst; congruence.
Qed.

Lemma alive_at_append (w : world) (x : tkwin) (j : nat) :
  alive_at (set_wins (wins w ++ [x]) w) j = true ->
  alive_at w j = true \/ j = length (wins w).
Proof.
  unfold alive_at; simpl. destruct (Nat.lt_ge_cases j (length (wins w))).
  - rewrite nth_error_app1 by exact H; auto.
  - rewrite nth_error_app2 by exact H.
    destruct (j - length (wins w)) eqn:E; simpl; [right; lia|].
    destruct n; discriminate.
Qed.

Lemma inv_apply_event (e : string) (s : state) : inv s -> inv (apply_event e s).
Proof.
  intros Hi; unfold apply_event.
  destruct (String.eqb e ev_create).
  - destruct (window_created s) eqn:Hc; simpl.
    + destruct (window_visible s); simpl.
      * now apply inv_start_timer.
      * now apply inv_start_timer, inv_show_window.
    + rewrite create_window_main_thread_eq. apply inv_start_timer.
      destruct Hi as [H1 H2]. split; simpl; [|discriminate].
      intros j Hj. apply alive_at_append in Hj as [Hj| ->]; [|reflexivity].
      rewrite (H1 j Hj) in H2; discriminate (H2 Hc).
  - destruct (String.eqb e ev_hide); [now apply inv_hide_window|].
    destruct (String.eqb e ev_close); [now apply inv_close_window|exact Hi].
Qed.

Lemma inv_loop_tick (s : state) : inv s -> inv (loop_tick s).
Proof.
  intros Hi; unfold loop_tick.
  assert (H1 : inv match event_queue s with
                   | [] => s
                   | e :: q => apply_event e (set_event_queue q s)
                   end) by (destruct (event_queue s); [exact Hi|now apply inv_apply_event]).
  revert H1; generalize (match event_queue s with
                         | [] => s
                         | e :: q => apply_event e (set_event_queue q s)
                         end) as s1; intros s1 Hi1.
  destruct (window s1) as [i|] eqn:Hw; [|exact Hi1].
  destruct (update i (tk_world s1)) as [[u w']|] eqn:E; [exact Hi1|].
  destruct Hi1 as [H1 H2].
  apply update_fails_dead in E. split; simpl; [|reflexivity].
  intros j Hj; rewrite (H1 j Hj) in Hw; inversion Hw; subst; congruence.
Qed.

Lemma inv_step (a : action) (s : state) : inv s -> inv (step a s).
Proof.
  intros Hi; destruct a as [k|k| |ms|t|i|b]; simpl.
  - unfold on_shift_press; destruct (_ && _); exact Hi.
  - unfold on_shift_release; destruct (is_shift k); exact Hi.
  - now apply inv_loop_tick.
  - exact Hi.
  - unfold fire; destruct (find _ _) as [x|]; [destruct (_ <=? _)|]; exact Hi.
  - destruct Hi as [H1 H2].
    destruct (destroy i (tk_world s)) as [[u w']|] eqn:E; [|split; auto].
    split; simpl; auto. intros j Hj.
    rewrite (destroy_alive i j _ _ _ E) in Hj.
    apply andb_prop in Hj as [_ Hj]; auto.
  - exact Hi.
Qed.

Lemma inv_reachable (s : state) : reachable s -> inv s.
Proof.
  induction 1 as [w Hw|a s _ IH].
  - split; [|reflexivity]. intros j; unfold alive_at; simpl; rewrite Hw.
    destruct j; discriminate.
  - now apply inv_step.
Qed.

Lemma filter_alive_none (l : list tkwin) :
  (forall j x, nth_error l j = Some x -> w_alive x = false) ->
  filter w_alive l = [].
Proof.
  induction l as [|x t IH]; simpl; auto; intros H.
  rewrite (H 0 x eq_refl). apply IH; intros j y Hy; exact (H (S j) y Hy).
Qed.



Lemma live_count_absent (s : state) :
  inv s -> window_created s = false -> live_count (tk_world s) = 0.
Proof.
  intros [H1 H2] Hc. unfold live_count. rewrite filter_alive_none; [reflexivity|].
  intros j x Hx; destruct (w_alive x) eqn:Ex; auto.
  assert (Ha : alive_at (tk_world s) j = true) by (unfold alive_at; now rewrite Hx).
  pose proof (H1 j Ha); pose proof (H2 Hc); congruence.
Qed.

(** *** Windows are allocated only by [create_window] while
    [window_created] is [False]. *)



Lemma close_window_nwins (s : state) : nwins (close_window s) = nwins s.
Proof.
  unfold close_window, nwins.
  destruct (window s) as [i|]; [|reflexivity].
  destruct (destroy i (tk_world s)) as [[u w']|] eqn:E; [|reflexivity].
  exact (destroy_length i _ _ _ E).
Qed.



Lemma window_of_alive (i : nat) (w : world) :
  alive_at w i = true -> exists x, window_of i w = Some (x, w).
Proof.
  unfold alive_at, window_of; destruct (nth_error (wins w) i) as [x|];
    [intros H; rewrite H; eauto | discriminate].
Qed.

Lemma modify_alive (i : nat) (f : tkwin -> tkwin) (w : world) :
  alive_at w i = true ->
  modify i f w = Some (tt, set_wins (upd_nth i f (wins w)) w).
Proof.
  intros H; destruct (window_of_alive i w H) as [x Hx].
  unfold modify, Tk.bind; now rewrite Hx.
Qed.

Lemma alive_after_modify (i j : nat) (f : tkwin -> tkwin) (w : world) :
  alive_at w j = true -> (forall x, w_alive (f x) = w_alive x) ->
  alive_at (set_wins (upd_nth i f (wins w)) w) j = true.
Proof.
  intros H Hf; rewrite alive_at_upd.
  destruct (Nat.eqb_spec i j) as [<-|]; [|exact H].
  unfold alive_at in H; destruct (nth_error (wins w) i); [now rewrite Hf|exact H].
Qed.

Lemma mapped_after_set_mapped (i : nat) (b : bool) (w : world) :
  alive_at w i = true ->
  mapped_at (set_wins (upd_nth i (set_mapped b) (wins w)) w) i = b.
Proof.
  unfold alive_at, mapped_at; simpl; rewrite nth_error_upd_nth, Nat.eqb_refl.
  destruct (nth_error (wins w) i); [reflexivity|discriminate].
Qed.

Ltac run_alive :=
  repeat (cbv beta iota;
    match goal with
    | H : alive_at ?w ?i = true |- context [window_of ?i ?w] =>
        let x := fresh "x" in let Hx := fresh "Hx" in
        destruct (window_of_alive i w H) as [x Hx]; rewrite Hx; clear Hx
    | H : alive_at ?w ?i = true |- context [modify ?i ?f ?w] =>
        rewrite (modify_alive i f w H);
        let Ha := fresh "Ha" in
        assert (Ha : alive_at (set_wins (upd_nth i f (wins w)) w) i = true)
          by (apply alive_after_modify; [exact H | intros; reflexivity])
    end).

Lemma show_calls_alive (i : nat) (w : world) :
  alive_at w i = true ->
  exists w', show_calls i w = Some (tt, w') /\ mapped_at w' i = true.
Proof.
  intros H.
  unfold show_calls, winfo_screenwidth, winfo_screenheight, geometry,
    raise_window, deiconify; cbv [Tk.bind Tk.ret].
  run_alive. eexists; split; [reflexivity|].
  apply mapped_after_set_mapped; assumption.
Qed.

Lemma show_calls_dead (i : nat) (w : world) :
  alive_at w i = false -> show_calls i w = None.
Proof.
  intros H. unfold show_calls, winfo_screenwidth; cbv [Tk.bind].
  now rewrite (window_of_dead i w H).
Qed.

Lemma show_calls_eq (i : nat) (w : world) :
  alive_at w i = true ->
  show_calls i w =
  Some (tt, set_wins (upd_nth i (set_mapped true)
                        (upd_nth i (set_geometry (corner (screen_w w) (screen_h w)))
                           (wins w))) w).
Proof.
  intros H.
  unfold show_calls, winfo_screenwidth, winfo_screenheight, geometry,
    raise_window, deiconify; cbv [Tk.bind Tk.ret].
  run_alive. reflexivity.
Qed.

Lemma show_calls_geometry (i : nat) (w w' : world) (u : unit) :
  alive_at w i = true -> show_calls i w = Some (u, w') ->
  exists x, nth_error (wins w') i = Some x /\
            w_geometry x = corner (screen_w w) (screen_h w).
Proof.
  intros Ha H. rewrite (show_calls_eq i w Ha) in H; inversion H; subst; clear H.
  unfold alive_at in Ha. simpl. rewrite !nth_error_upd_nth, Nat.eqb_refl.
  destruct (nth_error (wins w) i); [|discriminate].
  eexists; split; reflexivity.
Qed.

Lemma withdraw_alive (i : nat) (w : world) :
  alive_at w i = true ->
  exists w', withdraw i w = Some (tt, w') /\ mapped_at w' i = false.
Proof.
  intros H; unfold withdraw; rewrite (modify_alive _ _ _ H).
  eexists; split; [reflexivity|]. now apply mapped_after_set_mapped.
Qed.

Ltac case_all :=
  repeat first
    [ reflexivity
    | match goal with |- context [match ?x with _ => _ end] => destruct x end ].

(** *** The loop never touches the queue except by popping. *)
Lemma apply_event_queue (e : string) (s : state) :
  event_queue (apply_event e s) = event_queue s.
Proof.
  unfold apply_event, show_window, hide_window, close_window; simpl; case_all.
Qed.

Lemma loop_tick_queue (s : state) :
  event_queue (loop_tick s) = skipn 1 (event_queue s).
Proof.
  unfold loop_tick.
  destruct (event_queue s) as [|e q] eqn:Hq; simpl.
  - destruct (window s); [destruct (update _ _)|]; simpl; auto.
  - pose proof (apply_event_queue e (set_event_queue q s)) as H.
    destruct (window (apply_event e (set_event_queue q s))); [destruct (update _ _)|];
      simpl; auto.
Qed.

Lemma skipn_app_length {A} (l r : list A) : skipn (length l) (l ++ r) = r.
Proof. induction l; simpl; auto. Qed.

Lemma step_queue_grows (a : action) (s : state) :
  a <> Tick -> exists xs, event_queue (step a s) = event_queue s ++ xs.
Proof.
  intros Ha; destruct a as [k|k| |ms|t|i|b]; simpl;
    try (exists []; rewrite app_nil_r; reflexivity).
  - unfold on_shift_press; destruct (_ && _); simpl; eexists;
      [reflexivity | rewrite app_nil_r; reflexivity].
  - unfold on_shift_release; destruct (is_shift k); exists []; now rewrite app_nil_r.
  - now destruct Ha.
  - unfold fire; destruct (find _ _); [destruct (_ <=? _)|]; simpl; eexists;
      try reflexivity; rewrite app_nil_r; reflexivity.
  - destruct (destroy i (tk_world s)) as [[u w']|]; exists []; now rewrite app_nil_r.
Qed.

Lemma step_queue_enqueued (a : action) (s : state) :
  a <> Tick -> event_queue (step a s) = event_queue s ++ enqueued_by a s.
Proof.
  intros Ha; destruct (step_queue_grows a s Ha) as [xs Hx].
  destruct a; try (now destruct Ha);
    unfold enqueued_by; rewrite Hx, skipn_app_length; reflexivity.
Qed.

Lemma withdraw_dead (i : nat) (w : world) :
  alive_at w i = false -> withdraw i w = None.
Proof.
  intros H; unfold withdraw, modify, Tk.bind; now rewrite (window_of_dead i w H).
Qed.

Lemma live_count_no_window (s : state) :
  inv s -> window s = None -> live_count (tk_world s) = 0.
Proof.
  intros [H1 _] Hw. unfold live_count. rewrite filter_alive_none; [reflexivity|].
  intros j x Hx; destruct (w_alive x) eqn:Ex; auto.
  assert (Ha : alive_at (tk_world s) j = true) by (unfold alive_at; now rewrite Hx).
  pose proof (H1 j Ha); congruence.
Qed.

(** *** With no handle but [window_created] set, no window is ever
    allocated again. *)
Lemma apply_event_stuck (e : string) (s : state) :
  window s = None -> window_created s = true ->
  window (apply_event e s) = None /\ window_created (apply_event e s) = true.
Proof.
  intros Hw Hc; unfold apply_event, show_window, hide_window, close_window.
  rewrite Hw, Hc; simpl.
  destruct (String.eqb e ev_create); [destruct (window_visible s)|];
    [..|destruct (String.eqb e ev_hide); [|destruct (String.eqb e ev_close)]];
    simpl; auto.
Qed.

Lemma step_stuck (a : action) (s : state) :
  window s = None -> window_created s = true ->
  window (step a s) = None /\ window_created (step a s) = true.
Proof.
  intros Hw Hc; destruct a as [k|k| |ms|t|i|b]; simpl.
  - unfold on_shift_press; destruct (_ && _); auto.
  - unfold on_shift_release; destruct (is_shift k); auto.
  - unfold loop_tick. destruct (event_queue s) as [|e q].
    + rewrite Hw; auto.
    + destruct (apply_event_stuck e (set_event_queue q s) Hw Hc) as [H1 H2].
      rewrite H1; auto.
  - auto.
  - unfold fire; destruct (find _ _); [destruct (_ <=? _)|]; auto.
  - destruct (destroy i (tk_world s)) as [[u w']|]; auto.
  - auto.
Qed.

Lemma run_stuck (tr : list action) (s : state) :
  window s = None -> window_created s = true ->
  window (run tr s) = None /\ window_created (run tr s) = true.
Proof.
  revert s; induction tr as [|a tr IH]; intros s Hw Hc; simpl; auto.
  destruct (step_stuck a s Hw Hc); now apply IH.
Qed.

(** *** Every window keeps the look [create_window_main_thread] gave it. *)

Lemma keeps_style_trans (w1 w2 w3 : world) :
  keeps_style w1 w2 -> keeps_style w2 w3 -> keeps_style w1 w3.
Proof. unfold keeps_style; auto. Qed.

Lemma keeps_style_refl (w : world) : keeps_style w w.
Proof. unfold keeps_style; auto. Qed.

Lemma keeps_style_modify (i : nat) (f : tkwin -> tkwin) :
  (forall x, w_bg (f x) = w_bg x /\ w_text (f x) = w_text x) ->
  tk_rel keeps_style (modify i f).
Proof.
  intros Hf w u w' H Hst; apply modify_some in H as [-> _].
  intros j x Hx; simpl in Hx. rewrite nth_error_upd_nth in Hx.
  destruct (Nat.eqb i j).
  - destruct (nth_error (wins w) j) as [y|] eqn:Ey; simpl in Hx; [|discriminate].
    inversion Hx; subst. destruct (Hf y) as [-> ->]. exact (Hst j y Ey).
  - exact (Hst j x Hx).
Qed.

Ltac keeps_style_tac :=
  rel_tac keeps_style_trans keeps_style_refl keeps_style_modify.

Lemma show_calls_keeps_style (i : nat) : tk_rel keeps_style (show_calls i).
Proof.
  unfold show_calls, winfo_screenwidth, winfo_screenheight, geometry,
    raise_window, deiconify; keeps_style_tac.
Qed.

Lemma modify_keeps_style (i : nat) (f : tkwin -> tkwin) w u w' :
  (forall x, w_bg (f x) = w_bg x /\ w_text (f x) = w_text x) ->
  modify i f w = Some (u, w') -> keeps_style w w'.
Proof. intros Hf H; exact (keeps_style_modify i f Hf _ _ _ H). Qed.

Lemma update_keeps_style (i : nat) : tk_rel keeps_style (update i).
Proof. unfold update; keeps_style_tac. Qed.

Lemma styled_append (w : world) :
  styled window_bg label_text w ->
  styled window_bg label_text
    (set_wins (wins w ++ [created_win (screen_w w) (screen_h w)]) w).
Proof.
  intros Hst j x Hx; simpl in Hx.
  destruct (Nat.lt_ge_cases j (length (wins w))).
  - rewrite nth_error_app1 in Hx by exact H; exact (Hst j x Hx).
  - rewrite nth_error_app2 in Hx by exact H.
    destruct (j - length (wins w)) as [|[|n]]; simpl in Hx;
      [inversion Hx; split; reflexivity | discriminate | discriminate].
Qed.

Lemma styled_apply_event (e : string) (s : state) :
  styled window_bg label_text (tk_world s) ->
  styled window_bg label_text (tk_world (apply_event e s)).
Proof.
  intros Hst; unfold apply_event.
  destruct (String.eqb e ev_create).
  - destruct (window_created s); simpl.
    + destruct (window_visible s); simpl; [exact Hst|].
      unfold show_window. destruct (window s) as [i|]; [|exact Hst].
      destruct (negb (window_visible s)); [|exact Hst].
      destruct (show_calls i (tk_world s)) as [[u w']|] eqn:E; [|exact Hst].
      exact (show_calls_keeps_style i _ _ _ E Hst).
    + rewrite create_window_main_thread_eq; simpl. now apply styled_append.
  - destruct (String.eqb e ev_hide).
    + unfold hide_window. destruct (window s) as [i|]; [|exact Hst].
      destruct (window_visible s); [|exact Hst].
      destruct (withdraw i (tk_world s)) as [[u w']|] eqn:E; [|exact Hst].
      refine (modify_keeps_style _ _ _ _ _ _ E Hst); split; reflexivity.
    + destruct (String.eqb e ev_close); [|exact Hst].
      unfold close_window. destruct (window s) as [i|]; [|exact Hst].
      destruct (destroy i (tk_world s)) as [[u w']|] eqn:E; [|exact Hst].
      refine (modify_keeps_style _ _ _ _ _ _ E Hst); split; reflexivity.
Qed.

Lemma styled_step (a : action) (s : state) :
  styled window_bg label_text (tk_world s) ->
  styled window_bg label_text (tk_world (step a s)).
Proof.
  intros Hst; destruct a as [k|k| |ms|t|i|b]; simpl.
  - unfold on_shift_press; destruct (_ && _); exact Hst.
  - unfold on_shift_release; destruct (is_shift k); exact Hst.
  - unfold loop_tick.
    assert (H1 : styled window_bg label_text
                   (tk_world match event_queue s with
                             | [] => s
                             | e :: q => apply_event e (set_event_queue q s)
                             end))
      by (destruct (event_queue s); [exact Hst | now apply styled_apply_event]).
    revert H1; generalize (match event_queue s with
                           | [] => s
                           | e :: q => apply_event e (set_event_queue q s)
                           end) as s1; intros s1 H1.
    destruct (window s1); [destruct (update _ _)|]; exact H1.
  - exact Hst.
  - unfold fire; destruct (find _ _); [destruct (_ <=? _)|]; exact Hst.
  - destruct (destroy i (tk_world s)) as [[u w']|] eqn:E; [|exact Hst].
    refine (modify_keeps_style _ _ _ _ _ _ E Hst); split; reflexivity.
  - exact Hst.
Qed.

Lemma styled_reachable (s : state) :
  reachable s -> styled window_bg label_text (tk_world s).
Proof.
  induction 1 as [w Hw|a s _ IH].
  - intros j x Hx; simpl in Hx; rewrite Hw in Hx; destruct j; discriminate.
  - now apply styled_step.
Qed.

Lemma action_eq_tick (a : action) : {a = Tick} + {a <> Tick}.
Proof. destruct a; (right; discriminate) || (left; reflexivity). Qed.

Lemma reachable_run (tr : list action) (s : state) :
  reachable s -> reachable (run tr s).
Proof.
  revert s; induction tr as [|a tr IH]; intros s Hs; simpl; auto.
  apply IH; now constructor.
Qed.

(** *** A Hidden state that still holds a window holds no timer handle:
    only [hide_window] makes a live shown window hidden, and it clears
    the handle. *)
Lemma hidden_handle_none_apply_event (e : string) (s : state) :
  (window_created s = true -> window_visible s = false -> window s <> None ->
   window_timer s = None) ->
  let s' := apply_event e s in
  window_created s' = true -> window_visible s' = false -> window s' <> None ->
  window_timer s' = None.
Proof.
  intros H s'; unfold s', apply_event.
  destruct (String.eqb e ev_create).
  - destruct (window_created s) eqn:Hc; simpl.
    + destruct (window_visible s) eqn:Hv; simpl.
      * intros _ Hv'; rewrite Hv in Hv'; discriminate.
      * unfold show_window. destruct (window s) as [i|] eqn:Hw; simpl.
        -- rewrite Hv; simpl.
           destruct (show_calls i (tk_world s)) as [[u w']|]; simpl;
             [intros _ Hv'; discriminate | intros Hc'; discriminate].
        -- rewrite Hw; intros _ _ Hn; exfalso; apply Hn; reflexivity.
    + rewrite create_window_main_thread_eq; simpl; intros _ Hv'; discriminate.
  - destruct (String.eqb e ev_hide).
    + unfold hide_window; intros; reflexivity.
    + destruct (String.eqb e ev_close); [unfold close_window; intros; reflexivity|exact H].
Qed.

Lemma hidden_handle_none_step (a : action) (s : state) :
  (window_created s = true -> window_visible s = false -> window s <> None ->
   window_timer s = None) ->
  window_created (step a s) = true -> window_visible (step a s) = false ->
  window (step a s) <> None -> window_timer (step a s) = None.
Proof.
  intros H; destruct a as [k|k| |ms|t|i|b]; simpl.
  - unfold on_shift_press; destruct (_ && _); exact H.
  - unfold on_shift_release; destruct (is_shift k); exact H.
  - unfold loop_tick.
    assert (H1 : let s1 := match event_queue s with
                           | [] => s
                           | e :: q => apply_event e (set_event_queue q s)
                           end in
                 window_created s1 = true -> window_visible s1 = false ->
                 window s1 <> None -> window_timer s1 = None)
      by (destruct (event_queue s) as [|e q];
          [exact H | exact (hidden_handle_none_apply_event e (set_event_queue q s) H)]).
    revert H1; generalize (match event_queue s with
                           | [] => s
                           | e :: q => apply_event e (set_event_queue q s)
                           end) as s1; intros s1 H1.
    destruct (window s1); [destruct (update _ _)|]; [exact H1| |exact H1].
    intros _ _ Hn; exfalso; apply Hn; reflexivity.
  - exact H.
  - unfold fire; destruct (find _ _); [destruct (_ <=? _)|]; exact H.
  - destruct (destroy i (tk_world s)); [destruct p|]; exact H.
  - exact H.
Qed.

Lemma hidden_handle_none (s : state) :
  reachable s -> window_created s = true -> window_visible s = false ->
  window s <> None -> window_timer s = None.
Proof.
  induction 1 as [w Hw|a s _ IH]; [intros Hc; discriminate Hc|].
  now apply hidden_handle_none_step.
Qed.

End ControllerFacts.

(** ** The specification's claims about the controller. *)
Module Claims.
Import Tk TkFacts Controller ControllerFacts.



(** C2 (as the code does it): a [create_window] event dispatches on
    [window_created] / [window_visible].  Absent: a new window is
    allocated and shown, and exactly one timer is started after the held
    one is cancelled.  Hidden (with a window handle): if the window is
    still alive it is shown again at the bottom-right corner of the
    screen ([corner]), otherwise ([show_window] catches
    [TclError]) the handle is dropped and the state becomes Absent; the
    timer is re-armed in both cases.  Visible: only the timer is re-armed.
    (Hidden without a handle, which only the refresh tick's own recovery
    produces, is left out here.) *)
Theorem create_or_show_dispatch (s : state) :
  let s' := apply_event ev_create s in
  match lifecycle_of s with
  | Absent =>
      window s' = Some (nwins s) /\ window_created s' = true /\
      window_visible s' = true /\
      wins (tk_world s') = wins (tk_world s) ++
        [created_win (screen_w (tk_world s)) (screen_h (tk_world s))] /\
      rearmed s s'
  | Hidden =>
      match window s with
      | Some i =>
          if alive_at (tk_world s) i then
            window s' = Some i /\ window_created s' = true /\
            window_visible s' = true /\ mapped_at (tk_world s') i = true /\
            (exists x, nth_error (wins (tk_world s')) i = Some x /\
                       w_geometry x = corner (screen_w (tk_world s))
                                             (screen_h (tk_world s))) /\
            same_shape (tk_world s) (tk_world s') /\ rearmed s s'
          else
            window s' = None /\ window_created s' = false /\
            window_visible s' = false /\ tk_world s' = tk_world s /\
            rearmed s s'
      | None => True
      end
  | Visible =>
      window s' = window s /\ window_created s' = window_created s /\
      window_visible s' = window_visible s /\ tk_world s' = tk_world s /\
      rearmed s s'
  end.
Proof.
  unfold lifecycle_of, apply_event; cbv zeta.
  replace (String.eqb ev_create ev_create) with true by reflexivity.
  destruct (window_created s) eqn:Hc; simpl.
  - destruct (window_visible s) eqn:Hv; simpl.
    + repeat split; simpl; rewrite ?Hc, ?Hv; reflexivity.
    + unfold show_window. rewrite Hv; simpl.
      destruct (window s) as [i|] eqn:Hw; [|exact I].
      destruct (alive_at (tk_world s) i) eqn:Ha.
      * destruct (show_calls_alive i _ Ha) as [w' [E Hm]]. rewrite E.
        pose proof (show_calls_same_shape i _ _ _ E) as Hsh.
        pose proof (show_calls_geometry i _ _ _ Ha E) as Hg.
        split; [simpl; rewrite Hw; reflexivity|].
        split; [simpl; exact Hc|]. split; [reflexivity|]. split; [exact Hm|].
        split; [exact Hg|]. split; [exact Hsh|].
        repeat split; simpl; rewrite ?Hw, ?Hc; auto.
      * rewrite (show_calls_dead i _ Ha). repeat split; reflexivity.
  - rewrite create_window_main_thread_eq. repeat split; reflexivity.
Qed.

(** C2 fails as stated: a reachable Hidden state whose window was
    destroyed from outside is not made Visible by [create_window]; it
    becomes Absent instead. *)
Lemma create_or_show_hidden_cex :
  let s := run [Press shift; Tick; Wait 2000; Fire 0; Tick; ExtClose 0;
                Release shift; Press shift] (init screen0) in
  reachable s /\ lifecycle_of s = Hidden /\
  event_queue s = [ev_create] /\
  lifecycle_of (apply_event ev_create (set_event_queue [] s)) = Absent.
Proof.
  intros s. split; [apply reachable_run; constructor; reflexivity|].
  vm_compute; auto.
Qed.

(** C3 (as the code does it): each iteration of the update loop pops at
    most one event, the oldest, and applies it; the others wait for later
    iterations.  Over every run the events are applied in the order they
    were enqueued: the queue at the start followed by everything enqueued
    equals everything applied followed by the queue at the end. *)
Theorem tick_pops_oldest_fifo :
  (forall s, applied_by Tick s = firstn 1 (event_queue s) /\
             event_queue (step Tick s) = skipn 1 (event_queue s)) /\
  (forall tr s, event_queue s ++ enqueued_run tr s =
                applied_run tr s ++ event_queue (run tr s)).
Proof.
  split.
  - intros s; split; [reflexivity | apply loop_tick_queue].
  - induction tr as [|a tr IH]; intros s; simpl.
    + now rewrite app_nil_r.
    + rewrite <- app_assoc, <- IH.
      destruct (action_eq_tick a) as [->|Ha].
      * simpl; rewrite loop_tick_queue; destruct (event_queue s); reflexivity.
      * rewrite (step_queue_enqueued a s Ha), app_assoc.
        destruct a; try (now destruct Ha); reflexivity.
Qed.

(** C3 fails as stated: after one iteration with two pending events,
    the second one is still queued. *)
Lemma tick_drains_all_cex :
  let s := run [Press shift; Release shift; Press shift] (init screen0) in
  event_queue s = [ev_create; ev_create] /\
  event_queue (step Tick s) = [ev_create].
Proof. vm_compute; auto. Qed.

(** C4 (as the code does it): a [hide_window] event always sets the
    timer handle to [None] and leaves the window handle, [window_created],
    the queue and [shift_pressed] alone.  If the window is shown and
    alive it is withdrawn (not destroyed) and [window_visible] becomes
    [False].  In a reachable Hidden state that holds a window the timer
    handle is already [None], so the event changes nothing at all.  In
    every other case (Absent, a shown window destroyed from outside, or
    Hidden without a handle) [window_visible] and the Tk windows are
    unchanged and only the timer handle is cleared. *)
Theorem hide_intent (s : state) :
  reachable s ->
  let s' := apply_event ev_hide s in
  window_timer s' = None /\ window s' = window s /\
  window_created s' = window_created s /\
  event_queue s' = event_queue s /\ shift_pressed s' = shift_pressed s /\
  (lifecycle_of s = Hidden -> window s <> None -> s' = s) /\
  match window s with
  | Some i =>
      if window_visible s && alive_at (tk_world s) i
      then window_visible s' = false /\ mapped_at (tk_world s') i = false /\
           same_shape (tk_world s) (tk_world s')
      else window_visible s' = window_visible s /\ tk_world s' = tk_world s
  | None => window_visible s' = window_visible s /\ tk_world s' = tk_world s
  end.
Proof.
  intros Hr s'. unfold s'. change (apply_event ev_hide s) with (hide_window s).
  assert (Hhid : lifecycle_of s = Hidden -> window s <> None -> hide_window s = s).
  { unfold lifecycle_of; intros Hl Hn.
    destruct (window_created s) eqn:Hc; [|discriminate Hl].
    destruct (window_visible s) eqn:Hv; [discriminate Hl|].
    pose proof (hidden_handle_none s Hr Hc Hv Hn) as Ht.
    unfold hide_window; rewrite Hv.
    destruct (window s); destruct s; simpl in *; subst; reflexivity. }
  assert (Hrest :
    window_timer (hide_window s) = None /\ window (hide_window s) = window s /\
    window_created (hide_window s) = window_created s /\
    event_queue (hide_window s) = event_queue s /\
    shift_pressed (hide_window s) = shift_pressed s /\
    match window s with
    | Some i =>
        if window_visible s && alive_at (tk_world s) i
        then window_visible (hide_window s) = false /\
             mapped_at (tk_world (hide_window s)) i = false /\
             same_shape (tk_world s) (tk_world (hide_window s))
        else window_visible (hide_window s) = window_visible s /\
             tk_world (hide_window s) = tk_world s
    | None => window_visible (hide_window s) = window_visible s /\
              tk_world (hide_window s) = tk_world s
    end).
  { unfold hide_window.
    destruct (window s) as [i|] eqn:Hw; [|simpl; rewrite ?Hw; repeat split; reflexivity].
    destruct (window_visible s) eqn:Hv; simpl; [|rewrite ?Hw, ?Hv; repeat split; reflexivity].
    destruct (alive_at (tk_world s) i) eqn:Ha.
    - destruct (withdraw_alive i _ Ha) as [w' [E Hm]]. rewrite E.
      pose proof (withdraw_same_shape i _ _ _ E) as Hsh.
      repeat split; simpl; auto; apply Hsh.
    - rewrite (withdraw_dead i _ Ha). repeat split; simpl; auto. }
  destruct Hrest as (H1 & H2 & H3 & H4 & H5 & H6).
  split; [exact H1 | split; [exact H2 | split; [exact H3 | split; [exact H4 |
    split; [exact H5 | split; [exact Hhid | exact H6]]]]]].
Qed.

Lemma hide_intent_witness :
  let s := run [Press shift; Tick; Wait 2000; Fire 0; Tick] (init screen0) in
  let s' := apply_event ev_hide s in
  reachable s /\ lifecycle_of s = Hidden /\ window s = Some 0 /\
  window_timer s' = None /\ window s' = window s /\
  window_created s' = window_created s /\
  event_queue s' = event_queue s /\ shift_pressed s' = shift_pressed s /\
  (lifecycle_of s = Hidden -> window s <> None -> s' = s) /\
  match window s with
  | Some i =>
      if window_visible s && alive_at (tk_world s) i
      then window_visible s' = false /\ mapped_at (tk_world s') i = false /\
           same_shape (tk_world s) (tk_world s')
      else window_visible s' = window_visible s /\ tk_world s' = tk_world s
  | None => window_visible s' = window_visible s /\ tk_world s' = tk_world s
  end.
Proof.
  intros s s'. assert (Hs : reachable s)
    by (apply reachable_run; constructor; reflexivity).
  assert (Hl : lifecycle_of s = Hidden) by (vm_compute; reflexivity).
  assert (Hw : window s = Some 0) by (vm_compute; reflexivity).
  split; [exact Hs | split; [exact Hl | split; [exact Hw | exact (hide_intent s Hs)]]].
Defined.

(** C4 fails as stated: in a reachable Absent state (the hidden window
    was destroyed from outside, then Shift re-armed the timer) applying
    [hide_window] changes [window_timer]. *)
Lemma hide_noop_cex :
  let s := run [Press shift; Tick; Wait 2000; Fire 0; Tick; ExtClose 0;
                Release shift; Press shift; Tick; Wait 2000; Fire 1]
             (init screen0) in
  reachable s /\ lifecycle_of s = Absent /\ event_queue s = [ev_hide] /\
  window_timer s = Some 1 /\
  window_timer (apply_event ev_hide (set_event_queue [] s)) = None.
Proof.
  intros s. split; [apply reachable_run; constructor; reflexivity|].
  vm_compute; auto.
Qed.

(** C5 (the code's behaviour at the failing input): when the refresh
    tick finds the window destroyed it only sets [self.window = None];
    [window_created] stays [True], so no later [create_window] ever
    allocates a window again. *)
Theorem external_close_not_recovered :
  let s := run [Press shift; Tick; ExtClose 0; Tick] (init screen0) in
  window s = None /\ window_created s = true /\ window_visible s = true /\
  forall tr, window (run tr s) = None /\ window_created (run tr s) = true /\
             live_count (tk_world (run tr s)) = 0.
Proof.
  intros s.
  assert (Hs : reachable s) by (apply reachable_run; constructor; reflexivity).
  assert (Hw : window s = None) by reflexivity.
  assert (Hc : window_created s = true) by reflexivity.
  split; [exact Hw|split; [exact Hc|split; [reflexivity|]]].
  intros tr. destruct (run_stuck tr s Hw Hc) as [H1 H2].
  split; [exact H1|split; [exact H2|]].
  apply live_count_no_window; [|exact H1].
  apply inv_reachable, reachable_run, Hs.
Qed.

(** C6: a key press whose name contains [shift] while [shift_pressed]
    is [False] sets it and enqueues exactly one [create_window]; any other
    press changes nothing.  A release never touches the queue; it clears
    [shift_pressed] for a Shift key and changes nothing else. *)
Theorem shift_key_events (k : key) (s : state) :
  (if is_shift k && negb (shift_pressed s)
   then step (Press k) s =
        set_event_queue (event_queue s ++ [ev_create]) (set_shift_pressed true s)
   else step (Press k) s = s) /\
  event_queue (step (Release k) s) = event_queue s /\
  shift_pressed (step (Release k) s) =
    (if is_shift k then false else shift_pressed s) /\
  set_shift_pressed (shift_pressed s) (step (Release k) s) = s.
Proof.
  simpl; unfold on_shift_press, on_shift_release.
  destruct (is_shift k), (shift_pressed s) eqn:Hp; simpl;
    repeat split; try reflexivity; destruct s; simpl in *; subst; reflexivity.
Qed.

(** C7 (the code's behaviour at the failing input): Shift pressed again
    just as the first timer runs queues [create_window] before
    [hide_window]; the create re-arms the timer, the hide then drops the
    handle of that new timer without cancelling it, and the next press
    starts a third one.  Two timers are then outstanding, and the stale
    one hides the window at 4.0 s although the last press was at 3.0 s. *)
Theorem stale_timer_outstanding :
  let s := run [Press shift; Tick; Release shift; Wait 1990; Press shift;
                Wait 10; Fire 0; Tick; Tick; Release shift; Wait 1000;
                Press shift; Tick] (init screen0) in
  reachable s /\ clock s = 3000 /\ window_visible s = true /\
  window_timer s = Some 2 /\
  pending s = [mk_timer 1 4000; mk_timer 2 5000] /\
  let s' := run [Wait 1000; Fire 1; Tick] s in
  clock s' = 4000 /\ window_visible s' = false /\
  pending s' = [mk_timer 2 5000].
Proof.
  intros s. split; [apply reachable_run; constructor; reflexivity|].
  vm_compute; repeat split.
Qed.

(** C8 (as the code does it): every window the controller ever has, in
    every reachable state, has the fixed background [#2c3e50] and the
    fixed label text; nothing about the browser enters the window. *)
Theorem fixed_window_style (s : state) (Hs : reachable s) :
  Forall (fun x => w_bg x = window_bg /\ w_text x = label_text)
    (wins (tk_world s)).
Proof.
  apply Forall_forall; intros x Hx.
  destruct (In_nth_error _ _ Hx) as [j Hj].
  exact (styled_reachable s Hs j x Hj).
Qed.

Lemma fixed_window_style_witness :
  let s := run [SetSite true; Press shift; Tick] (init screen0) in
  reachable s /\
  Forall (fun x => w_bg x = window_bg /\ w_text x = label_text)
    (wins (tk_world s)).
Proof.
  intros s. assert (Hs : reachable s)
    by (apply reachable_run; constructor; reflexivity).
  split; [exact Hs | exact (fixed_window_style s Hs)].
Defined.

(** C8 fails as stated: the window created while x.com is frontmost is
    the same as the one created while it is not. *)
Lemma style_ignores_site_cex :
  nth_error (wins (tk_world (run [SetSite true; Press shift; Tick]
                                 (init screen0)))) 0 =
  nth_error (wins (tk_world (run [SetSite false; Press shift; Tick]
                                 (init screen0)))) 0 /\
  window_visible (run [SetSite true; Press shift; Tick] (init screen0)) = true.
Proof. vm_compute; split; reflexivity. Qed.

End Claims.

(** ** The specification's claims about the browser probe. *)
Module BrowserClaims.
Import Browser.

Lemma scan_browsers_negative (o : oracle) (bs : list string) :
  (forall b, negative_query (o (AllTabs b)) = true) ->
  snd (scan_browsers bs o) = Ret (false, None).
Proof.
  intros H; induction bs as [|b rest IH]; [reflexivity|].
  simpl; unfold bind, catch, osascript, ret. specialize (H b).
  destruct (o (AllTabs b)) as [rc out err|e]; simpl in H |- *.
  - apply negb_true_iff in H; rewrite H.
    destruct (scan_browsers rest o) as [l r]; exact IH.
  - rewrite H. destruct (scan_browsers rest o) as [l r]; exact IH.
Qed.

Lemma get_frontmost_application_ret (d : detector) (o : oracle) :
  exists l v, get_frontmost_application d o = (l, Ret v).
Proof.
  unfold get_frontmost_application; destruct (negb (darwin d)); [now eexists _, _|].
  unfold catch, bind, osascript, ret; destruct (o FrontApp) as [rc out err|e];
    simpl; [destruct (rc =? 0)%Z|]; eauto.
Qed.

(** C9: probe failures read as negative.  When every per-browser
    all-tabs query times out, raises [CalledProcessError] or does not
    print [true], [is_x_com_open_mac] returns [(False, None)]; when the
    frontmost-tabs query times out or raises [CalledProcessError] (and the
    window-title query of the fallback path raises),
    [is_browser_frontmost_with_x_com] returns [False] first. *)
Theorem probe_failures_negative (d : detector) (o : oracle)
  (Hall : forall b, negative_query (o (AllTabs b)) = true)
  (Hfront : forall b, timed_out_or_failed (o (FrontTabs b)) = true)
  (Htitle : raised (o FrontTitle) = true) :
  snd (is_x_com_open_mac d o) = Ret (false, None) /\
  exists b, snd (is_browser_frontmost_with_x_com d o) = Ret (false, b).
Proof.
  split; [exact (scan_browsers_negative o _ Hall)|].
  unfold is_browser_frontmost_with_x_com.
  destruct (negb (darwin d)); [exists None; reflexivity|].
  unfold bind at 1. destruct (get_frontmost_application_ret d o) as (l & v & E).
  rewrite E. destruct v as [app|]; [|exists None; reflexivity].
  destruct (String.eqb app EmptyString); [exists None; reflexivity|].
  destruct (find _ browser_apps) as [fb|]; [|exists None; reflexivity].
  destruct (find _ script_browsers) as [n|].
  - unfold catch, bind, osascript, ret. specialize (Hfront n).
    destruct (o (FrontTabs n)) as [rc out err|e]; simpl in Hfront |- *;
      [discriminate|rewrite Hfront; simpl]. exists (Some fb); reflexivity.
  - unfold get_active_window_title_mac, catch, bind, osascript, ret.
    destruct (o FrontTitle) as [rc out err|e]; simpl in Htitle |- *;
      [discriminate|]. exists (Some fb); reflexivity.
Qed.

Lemma probe_failures_negative_witness :
  (forall b, negative_query (failing_oracle (AllTabs b)) = true) /\
  (forall b, timed_out_or_failed (failing_oracle (FrontTabs b)) = true) /\
  raised (failing_oracle FrontTitle) = true /\
  snd (is_x_com_open_mac (mk_detector "Darwin") failing_oracle) = Ret (false, None) /\
  exists b, snd (is_browser_frontmost_with_x_com (mk_detector "Darwin")
                   failing_oracle) = Ret (false, b).
Proof.
  assert (H1 : forall b, negative_query (failing_oracle (AllTabs b)) = true)
    by (intros b; simpl; destruct (String.eqb b "Safari"); reflexivity).
  assert (H2 : forall b, timed_out_or_failed (failing_oracle (FrontTabs b)) = true)
    by (intros b; reflexivity).
  assert (H3 : raised (failing_oracle FrontTitle) = true) by reflexivity.
  split; [exact H1|split; [exact H2|split; [exact H3|]]].
  exact (probe_failures_negative (mk_detector "Darwin") failing_oracle H1 H2 H3).
Defined.

(** C10: off macOS both frontmost probes answer "inactive" without
    running any script. *)
Theorem non_darwin_inactive (d : detector) (o : oracle)
  (Hsys : system d <> "Darwin"%string) :
  is_browser_frontmost_with_x_com d o = ([], Ret (false, None)) /\
  is_browser_active_with_x d o = ([], Ret false).
Proof.
  assert (Hd : darwin d = false) by (apply String.eqb_neq; exact Hsys).
  unfold is_browser_frontmost_with_x_com, is_browser_active_with_x.
  rewrite Hd; split; reflexivity.
Qed.

Lemma non_darwin_inactive_witness :
  system (mk_detector "Linux") <> "Darwin"%string /\
  is_browser_frontmost_with_x_com (mk_detector "Linux") failing_oracle =
    ([], Ret (false, None)) /\
  is_browser_active_with_x (mk_detector "Linux") failing_oracle = ([], Ret false).
Proof.
  assert (H : system (mk_detector "Linux") <> "Darwin"%string) by discriminate.
  split; [exact H | exact (non_darwin_inactive _ failing_oracle H)].
Defined.

End BrowserClaims.

(** ** Further properties of [ShiftWindow]. *)
Module ControllerExtras.
Import Tk TkFacts Controller ControllerFacts.

(** *** Started timers. *)

Lemma in_cancel (t : nat) (p : list timer) (x : timer) :
  In x (cancel t p) <-> In x p /\ t_id x <> t.
Proof.
  unfold cancel; rewrite filter_In.
  destruct (Nat.eqb_spec (t_id x) t); simpl; intuition congruence.
Qed.

Lemma nodup_cancel (t : nat) (p : list timer) :
  NoDup (map t_id p) -> NoDup (map t_id (cancel t p)).
Proof.
  induction p as [|x p IH]; intros H; [constructor|].
  inversion H as [|? ? Hn Hd]; subst. unfold cancel in *; simpl.
  destruct (negb (t_id x =? t)); simpl; [constructor|]; auto.
  intros Hin; apply Hn. apply in_map_iff in Hin as (y & Hy & Hiy).
  apply in_map_iff; exists y; split; [exact Hy|].
  apply filter_In in Hiy; tauto.
Qed.

Lemma cancel_absent (t : nat) (p : list timer) :
  ~ In t (map t_id p) -> cancel t p = p.
Proof.
  induction p as [|x p IH]; intros H; [reflexivity|]. unfold cancel in *; simpl in *.
  destruct (Nat.eqb_spec (t_id x) t); [exfalso; tauto|]; simpl.
  f_equal; apply IH; tauto.
Qed.

Lemma cancel_length (t : nat) (p : list timer) :
  NoDup (map t_id p) -> In t (map t_id p) -> S (length (cancel t p)) = length p.
Proof.
  induction p as [|x p IH]; simpl; intros Hd Hi; [destruct Hi|].
  inversion Hd as [|? ? Hn Hd']; subst.
  unfold cancel; simpl; fold (cancel t p).
  destruct (t_id x =? t) eqn:E; simpl.
  - apply Nat.eqb_eq in E; subst.
    rewrite cancel_absent; [reflexivity|exact Hn].
  - apply Nat.eqb_neq in E. rewrite IH; [reflexivity|exact Hd'|].
    destruct Hi as [Hi|Hi]; [congruence|exact Hi].
Qed.

Lemma nodup_snoc (l : list nat) (a : nat) :
  NoDup l -> ~ In a l -> NoDup (l ++ [a]).
Proof.
  induction l as [|x l IH]; simpl; intros H Hn.
  - constructor; [intros []|constructor].
  - inversion H as [|? ? Hx Hl]; subst. constructor.
    + rewrite in_app_iff; simpl; intros [Hi|[Hi|[]]];
        [exact (Hx Hi) | subst; apply Hn; left; reflexivity].
    + apply IH; [exact Hl|]; intros Hi; apply Hn; right; exact Hi.
Qed.

Lemma apply_event_timers (e : string) (s : state) :
  pending (apply_event e s) =
    (if String.eqb e ev_create then pending (start_timer s) else pending s) /\
  next_timer (apply_event e s) =
    (if String.eqb e ev_create then S (next_timer s) else next_timer s).
Proof.
  unfold apply_event.
  destruct (String.eqb e ev_create).
  - destruct (window_created s); simpl.
    + destruct (window_visible s); simpl; [split; reflexivity|].
      unfold show_window; destruct (window s);
        [destruct (negb _); [destruct (show_calls _ _) as [[]|]|]|];
        split; reflexivity.
    + rewrite create_window_main_thread_eq; split; reflexivity.
  - unfold hide_window, close_window; split; case_all.
Qed.

Lemma loop_tick_timers (s : state) :
  pending (loop_tick s) =
    pending (match event_queue s with
             | [] => s
             | e :: q => apply_event e (set_event_queue q s)
             end) /\
  next_timer (loop_tick s) =
    next_timer (match event_queue s with
                | [] => s
                | e :: q => apply_event e (set_event_queue q s)
                end).
Proof.
  unfold loop_tick.
  generalize (match event_queue s with
              | [] => s
              | e :: q => apply_event e (set_event_queue q s)
              end) as s1; intros s1.
  destruct (window s1); [destruct (update _ _)|]; split; reflexivity.
Qed.

(** Every action leaves the started timers alone, cancels some of them,
    or does what [start_timer] does. *)
Lemma step_timers (a : action) (s : state) :
  (pending (step a s) = pending s /\ next_timer (step a s) = next_timer s) \/
  (exists t, pending (step a s) = cancel t (pending s) /\
             next_timer (step a s) = next_timer s) \/
  (pending (step a s) = pending (start_timer s) /\
   next_timer (step a s) = S (next_timer s)).
Proof.
  destruct a as [k|k| |ms|t|i|b]; simpl.
  - left; unfold on_shift_press; destruct (_ && _); split; reflexivity.
  - left; unfold on_shift_release; destruct (is_shift k); split; reflexivity.
  - destruct (loop_tick_timers s) as [Hp Hn]; rewrite Hp, Hn.
    destruct (event_queue s) as [|e q]; [left; split; reflexivity|].
    destruct (apply_event_timers e (set_event_queue q s)) as [Hp' Hn'].
    rewrite Hp', Hn'.
    destruct (String.eqb e ev_create); [right; right|left]; split; reflexivity.
  - left; split; reflexivity.
  - unfold fire; destruct (find _ _); [destruct (_ <=? _)|];
      [right; left; exists t; split; reflexivity | left; split; reflexivity
      | left; split; reflexivity].
  - left; destruct (destroy i (tk_world s)) as [[u w']|]; split; reflexivity.
  - left; split; reflexivity.
Qed.

Lemma timers_ok_start_timer (s : state) : timers_ok s -> timers_ok (start_timer s).
Proof.
  unfold timers_ok; intros [Hd Hb]. unfold start_timer; simpl.
  set (p := match window_timer s with
            | Some t => cancel t (pending s)
            | None => pending s
            end).
  assert (Hp : forall x, In x p -> In x (pending s))
    by (intros x; unfold p; destruct (window_timer s);
        [intros Hx; apply in_cancel in Hx; tauto | auto]).
  assert (Hdp : NoDup (map t_id p))
    by (unfold p; destruct (window_timer s); [apply nodup_cancel|]; exact Hd).
  rewrite Forall_forall in Hb. split.
  - rewrite map_app; simpl. apply nodup_snoc; [exact Hdp|].
    intros Hi; apply in_map_iff in Hi as (y & Hy & Hiy).
    specialize (Hb y (Hp y Hiy)); lia.
  - rewrite Forall_forall; intros x Hx.
    apply in_app_iff in Hx as [Hx|[<-|[]]]; simpl.
    + specialize (Hb x (Hp x Hx)); lia.
    + lia.
Qed.

Lemma timers_ok_step (a : action) (s : state) : timers_ok s -> timers_ok (step a s).
Proof.
  intros Ht.
  destruct (step_timers a s) as [[Hp Hn]|[[t [Hp Hn]]|[Hp Hn]]];
    unfold timers_ok; rewrite Hp, Hn.
  - exact Ht.
  - destruct Ht as [Hd Hb]; split; [now apply nodup_cancel|].
    rewrite Forall_forall in *; intros x Hx; apply Hb; apply in_cancel in Hx; tauto.
  - exact (timers_ok_start_timer s Ht).
Qed.

Lemma timers_ok_reachable (s : state) : reachable s -> timers_ok s.
Proof.
  induction 1 as [w Hw|a s _ IH]; [split; constructor | now apply timers_ok_step].
Qed.

(** *** Rendering: placement and visibility of the window. *)

Lemma mapped_at_last (w : world) (x : tkwin) :
  mapped_at (set_wins (wins w ++ [x]) w) (length (wins w)) = w_mapped x.
Proof. unfold mapped_at; simpl; now rewrite nth_error_last. Qed.

Lemma mapped_at_upd_other (i j : nat) (f : tkwin -> tkwin) (w : world) :
  Nat.eqb i j = false ->
  mapped_at (set_wins (upd_nth i f (wins w)) w) j = mapped_at w j.
Proof. intros H; unfold mapped_at; simpl; now rewrite nth_error_upd_nth, H. Qed.

Lemma visible_ok_show_window (s : state) :
  visible_ok s -> visible_ok (show_window s).
Proof.
  intros Hv; unfold show_window.
  destruct (window s) as [i|] eqn:Hw; [|exact Hv].
  destruct (negb (window_visible s)); [|exact Hv].
  destruct (alive_at (tk_world s) i) eqn:Ha.
  - destruct (show_calls_alive i _ Ha) as (w' & E & Hm); rewrite E.
    intros j Hj _; simpl in Hj. rewrite Hw in Hj; inversion Hj; subst.
    simpl; now rewrite Hm.
  - rewrite (show_calls_dead i _ Ha). intros j Hj; discriminate Hj.
Qed.

Lemma visible_ok_apply_event (e : string) (s : state) :
  visible_ok s -> visible_ok (apply_event e s).
Proof.
  intros Hv; unfold apply_event.
  destruct (String.eqb e ev_create).
  - destruct (window_created s); simpl.
    + destruct (window_visible s) eqn:Hvis; simpl.
      * exact Hv.
      * exact (visible_ok_show_window s Hv).
    + rewrite create_window_main_thread_eq. intros j Hj _; simpl in Hj.
      inversion Hj; subst. simpl. now rewrite mapped_at_last.
  - destruct (String.eqb e ev_hide).
    + unfold hide_window. destruct (window s) as [i|] eqn:Hw; [|exact Hv].
      destruct (window_visible s) eqn:Hvis; [|exact Hv].
      destruct (alive_at (tk_world s) i) eqn:Ha.
      * destruct (withdraw_alive i _ Ha) as (w' & E & Hm); rewrite E.
        intros j Hj _; simpl in Hj. rewrite Hw in Hj; inversion Hj; subst.
        simpl; now rewrite Hm.
      * rewrite (withdraw_dead i _ Ha). exact Hv.
    + destruct (String.eqb e ev_close); [|exact Hv].
      unfold close_window. destruct (window s); [|exact Hv].
      intros j Hj; discriminate Hj.
Qed.

Lemma visible_ok_step (a : action) (s : state) :
  visible_ok s -> visible_ok (step a s).
Proof.
  intros Hv; destruct a as [k|k| |ms|t|i|b]; simpl.
  - unfold on_shift_press; destruct (_ && _); exact Hv.
  - unfold on_shift_release; destruct (is_shift k); exact Hv.
  - unfold loop_tick.
    assert (H1 : visible_ok match event_queue s with
                            | [] => s
                            | e :: q => apply_event e (set_event_queue q s)
                            end)
      by (destruct (event_queue s); [exact Hv | now apply visible_ok_apply_event]).
    revert H1; generalize (match event_queue s with
                           | [] => s
                           | e :: q => apply_event e (set_event_queue q s)
                           end) as s1; intros s1 H1.
    destruct (window s1); [destruct (update _ _)|]; [exact H1| |exact H1].
    intros j Hj; discriminate Hj.
  - exact Hv.
  - unfold fire; destruct (find _ _); [destruct (_ <=? _)|]; exact Hv.
  - destruct (destroy i (tk_world s)) as [[u w']|] eqn:E; [|exact Hv].
    intros j Hj Ha; simpl in *. rewrite (destroy_alive i j _ _ _ E) in Ha.
    apply andb_prop in Ha as [Hne Ha]. apply negb_true_iff in Hne.
    unfold destroy in E; apply modify_some in E as [-> _].
    rewrite mapped_at_upd_other by exact Hne. exact (Hv j Hj Ha).
  - exact Hv.
Qed.

Lemma live_count_append (w : world) (x : tkwin) :
  live_count (set_wins (wins w ++ [x]) w) =
  live_count w + (if w_alive x then 1 else 0).
Proof.
  unfold live_count; simpl. rewrite filter_app, length_app; simpl.
  destruct (w_alive x); reflexivity.
Qed.

Lemma window_close_if_window (s : state) : window (close_if_window s) = None.
Proof.
  unfold close_if_window, close_window.
  destruct (window s) eqn:Hw; [reflexivity|exact Hw].
Qed.

Lemma inv_close_if_window (s : state) : inv s -> inv (close_if_window s).
Proof.
  intros Hi; unfold close_if_window; destruct (window s);
    [now apply inv_close_window | exact Hi].
Qed.

Lemma visible_ok_reachable (s : state) : reachable s -> visible_ok s.
Proof.
  induction 1 as [w Hw|a s _ IH].
  - intros j Hj; discriminate Hj.
  - now apply visible_ok_step.
Qed.

(** X1: the exit path of [start_monitoring] ([except KeyboardInterrupt],
    then [finally], each running [if self.window: self.close_window()])
    leaves no window handle and no live Tk window, from every reachable
    state; the second [close_window] of that path changes nothing. *)
Theorem shutdown_no_live_window (s : state) :
  reachable s ->
  window (shutdown s) = None /\ live_count (tk_world (shutdown s)) = 0 /\
  shutdown s = close_if_window s.
Proof.
  intros Hr.
  assert (Heq : shutdown s = close_if_window s).
  { unfold shutdown. pose proof (window_close_if_window s) as Hw.
    remember (close_if_window s) as s1.
    unfold close_if_window at 1; rewrite Hw; reflexivity. }
  rewrite Heq. split; [apply window_close_if_window|split; [|reflexivity]].
  apply live_count_no_window; [|apply window_close_if_window].
  apply inv_close_if_window, inv_reachable, Hr.
Qed.

Lemma shutdown_no_live_window_witness :
  let s := run [Press shift; Tick; Wait 2000; Fire 0; Tick] (init screen0) in
  reachable s /\ window s <> None /\
  window (shutdown s) = None /\ live_count (tk_world (shutdown s)) = 0 /\
  shutdown s = close_if_window s.
Proof.
  intros s. assert (Hs : reachable s)
    by (apply reachable_run; constructor; reflexivity).
  split; [exact Hs | split; [vm_compute; discriminate | exact (shutdown_no_live_window s Hs)]].
Defined.

(** X2: while a window handle is held, closing the window and then asking
    for it again ([close_window] followed by a [create_window] event)
    allocates a fresh window, which becomes [self.window], is shown, and
    is then the only live window. *)
Theorem close_then_create_reopens (s : state) (i : nat) :
  reachable s -> window s = Some i ->
  let s' := apply_event ev_create (apply_event ev_close s) in
  window s' = Some (nwins s) /\ window_visible s' = true /\
  nwins s' = S (nwins s) /\ live_count (tk_world s') = 1.
Proof.
  intros Hr Hw s'. unfold s'.
  change (apply_event ev_close s) with (close_window s).
  assert (Hi : inv (close_window s)) by (apply inv_close_window, inv_reachable, Hr).
  assert (Hc : window_created (close_window s) = false)
    by (unfold close_window; rewrite Hw; reflexivity).
  pose proof (close_window_nwins s) as Hn.
  pose proof (live_count_absent _ Hi Hc) as Hl.
  revert Hi Hc Hn Hl; generalize (close_window s) as c; intros c Hi Hc Hn Hl.
  unfold apply_event; rewrite String.eqb_refl, Hc.
  change (negb false) with true; cbv iota.
  rewrite create_window_main_thread_eq.
  unfold nwins in *; simpl.
  rewrite <- Hn, live_count_append, Hl, length_app; simpl.
  repeat split; lia.
Qed.

Lemma close_then_create_reopens_witness :
  let s := run [Press shift; Tick] (init screen0) in
  let s' := apply_event ev_create (apply_event ev_close s) in
  reachable s /\ window s = Some 0 /\
  window s' = Some (nwins s) /\ window_visible s' = true /\
  nwins s' = S (nwins s) /\ live_count (tk_world s') = 1.
Proof.
  intros s s'. assert (Hs : reachable s)
    by (apply reachable_run; constructor; reflexivity).
  assert (Hw : window s = Some 0) by (vm_compute; reflexivity).
  split; [exact Hs | split; [exact Hw | exact (close_then_create_reopens s 0 Hs Hw)]].
Defined.

(** X3: re-arming on a [create_window] event while the timer held in
    [self.window_timer] is still outstanding replaces that timer: the
    number of outstanding timers stays the same, the old one is no longer
    outstanding, and the new one is due 2000 ms from now. *)
Theorem rearm_replaces_outstanding (s : state) (t : nat) :
  reachable s -> window_timer s = Some t -> In t (map t_id (pending s)) ->
  let s' := apply_event ev_create s in
  length (pending s') = length (pending s) /\
  ~ In t (map t_id (pending s')) /\
  In (mk_timer (next_timer s) (clock s + 2000)) (pending s').
Proof.
  intros Hr Hw Hin s'. unfold s'.
  destruct (timers_ok_reachable s Hr) as [Hd Hb].
  destruct (apply_event_timers ev_create s) as [Hp _].
  rewrite String.eqb_refl in Hp. rewrite Hp.
  unfold start_timer; simpl; rewrite Hw.
  split; [|split].
  - rewrite length_app; simpl. rewrite <- (cancel_length t (pending s) Hd Hin). lia.
  - rewrite map_app, in_app_iff; simpl. intros [Hi|[Hi|[]]].
    + apply in_map_iff in Hi as (y & Hy & Hiy); apply in_cancel in Hiy; tauto.
    + apply in_map_iff in Hin as (y & Hy & Hiy).
      rewrite Forall_forall in Hb; specialize (Hb y Hiy); lia.
  - apply in_app_iff; right; left; reflexivity.
Qed.

Lemma rearm_replaces_outstanding_witness :
  let s := run [Press shift; Tick; Release shift; Wait 500] (init screen0) in
  let s' := apply_event ev_create s in
  reachable s /\ window_timer s = Some 0 /\ In 0 (map t_id (pending s)) /\
  length (pending s') = length (pending s) /\
  ~ In 0 (map t_id (pending s')) /\
  In (mk_timer (next_timer s) (clock s + 2000)) (pending s').
Proof.
  intros s s'. assert (Hs : reachable s)
    by (apply reachable_run; constructor; reflexivity).
  assert (Hw : window_timer s = Some 0) by (vm_compute; reflexivity).
  assert (Hi : In 0 (map t_id (pending s))) by (vm_compute; left; reflexivity).
  split; [exact Hs | split; [exact Hw | split; [exact Hi |
    exact (rearm_replaces_outstanding s 0 Hs Hw Hi)]]].
Defined.

(** X6: in every reachable state, while [self.window] is a live window,
    [window_visible] is exactly whether that window is rendered
    (deiconified rather than withdrawn). *)
Theorem visible_flag_tracks_window (s : state) (i : nat) :
  reachable s -> window s = Some i -> alive_at (tk_world s) i = true ->
  window_visible s = mapped_at (tk_world s) i.
Proof. intros Hr; exact (visible_ok_reachable s Hr i). Qed.

Lemma visible_flag_tracks_window_witness :
  let s := run [Press shift; Tick; Wait 2000; Fire 0; Tick] (init screen0) in
  reachable s /\ window s = Some 0 /\ alive_at (tk_world s) 0 = true /\
  window_visible s = mapped_at (tk_world s) 0.
Proof.
  intros s. assert (Hs : reachable s)
    by (apply reachable_run; constructor; reflexivity).
  assert (Hw : window s = Some 0) by (vm_compute; reflexivity).
  assert (Ha : alive_at (tk_world s) 0 = true) by (vm_compute; reflexivity).
  split; [exact Hs | split; [exact Hw | split; [exact Ha |
    exact (visible_flag_tracks_window s 0 Hs Hw Ha)]]].
Defined.

End ControllerExtras.

(** ** Further properties of [BrowserDetector]. *)
Module BrowserExtras.
Import Browser.

Lemma scan_browsers_cons (b : string) (rest : list string) (o : oracle) :
  scan_browsers (b :: rest) o =
  match o (AllTabs b) with
  | Completed rc out err =>
      if String.eqb (PyStr.strip out) "true" then ([AllTabs b], Ret (true, Some b))
      else let (l, r) := scan_browsers rest o in (AllTabs b :: l, r)
  | Raised e =>
      if timeout_or_cpe e
      then let (l, r) := scan_browsers rest o in (AllTabs b :: l, r)
      else ([AllTabs b], Raise e)
  end.
Proof.
  cbn [scan_browsers]. unfold Browser.bind, catch, osascript, Browser.ret, raise.
  destruct (o (AllTabs b)) as [rc out err|e]; cbn -[PyStr.strip].
  - destruct (String.eqb (PyStr.strip out) "true"); cbn -[PyStr.strip]; [reflexivity|].
    destruct (scan_browsers rest o); reflexivity.
  - destruct (timeout_or_cpe e); cbn -[PyStr.strip]; [|reflexivity].
    destruct (scan_browsers rest o); reflexivity.
Qed.

(** Browsers whose query came back negative are skipped. *)
Lemma scan_skip_negative (pre bs : list string) (o : oracle) :
  Forall (fun x => negative_query (o (AllTabs x)) = true) pre ->
  scan_browsers (pre ++ bs) o =
  let (l, r) := scan_browsers bs o in (map AllTabs pre ++ l, r).
Proof.
  induction pre as [|x pre IH]; intros Hn.
  - simpl; destruct (scan_browsers bs o); reflexivity.
  - inversion Hn as [|? ? Hx Hpre]; subst. simpl app.
    rewrite scan_browsers_cons, (IH Hpre). unfold negative_query in Hx.
    destruct (o (AllTabs x)) as [rc out err|e].
    + apply negb_true_iff in Hx; rewrite Hx.
      destruct (scan_browsers bs o); reflexivity.
    + rewrite Hx; destruct (scan_browsers bs o); reflexivity.
Qed.

Lemma frontmost_app_query (d : detector) (o : oracle) :
  darwin d = true ->
  get_frontmost_application d o =
  ([FrontApp], Ret (match o FrontApp with
                    | Completed rc out _ =>
                        if (rc =? 0)%Z then Some (PyStr.strip out) else None
                    | Raised _ => None
                    end)).
Proof.
  intros Hd; unfold get_frontmost_application; rewrite Hd; cbv beta iota delta [negb].
  unfold Browser.bind, catch, osascript, Browser.ret; cbn -[PyStr.strip].
  destruct (o FrontApp) as [rc out err|e]; cbn -[PyStr.strip]; [|reflexivity].
  destruct (rc =? 0)%Z; reflexivity.
Qed.

Lemma title_query (d : detector) (o : oracle) :
  get_active_window_title_mac d o =
  ([FrontTitle], Ret (match o FrontTitle with
                      | Completed _ out _ => PyStr.strip out
                      | Raised _ => EmptyString
                      end)).
Proof.
  unfold get_active_window_title_mac, Browser.bind, catch, osascript, Browser.ret.
  cbn -[PyStr.strip]; destruct (o FrontTitle); reflexivity.
Qed.

(** [is_browser_frontmost_with_x_com] once the frontmost application
    [app] is known. *)
Lemma frontmost_after_app (d : detector) (o : oracle) (out err : string) :
  darwin d = true -> o FrontApp = Completed 0 out err ->
  is_browser_frontmost_with_x_com d o =
  let app := PyStr.strip out in
  if String.eqb app EmptyString then ([FrontApp], Ret (false, None))
  else
    match find (fun b => PyStr.contains (PyStr.lower b) (PyStr.lower app))
               browser_apps with
    | None => ([FrontApp], Ret (false, None))
    | Some fb =>
        let (l, r) :=
          match find (fun n => PyStr.contains (PyStr.lower n) (PyStr.lower fb))
                     script_browsers with
          | None =>
              Browser.bind (get_active_window_title_mac d)
                (fun title => Browser.ret (x_title title, Some fb)) o
          | Some n =>
              catch
                (Browser.bind (osascript (FrontTabs n)) (fun result =>
                   Browser.ret (String.eqb (PyStr.strip (stdout result)) "true",
                                Some fb)))
                (fun e => if timeout_or_cpe e then Browser.ret (false, Some fb)
                          else raise e) o
          end in
        (FrontApp :: l, r)
    end.
Proof.
  intros Hd Ho.
  unfold is_browser_frontmost_with_x_com; rewrite Hd; cbv beta iota delta [negb].
  unfold Browser.bind at 1. rewrite (frontmost_app_query d o Hd), Ho.
  rewrite Z.eqb_refl; cbv beta iota zeta.
  destruct (String.eqb (PyStr.strip out) EmptyString); [reflexivity|].
  destruct (find _ browser_apps) as [fb|]; [|reflexivity].
  destruct (find _ script_browsers) as [n|].
  - destruct (catch _ _ o); reflexivity.
  - destruct (Browser.bind _ _ o); reflexivity.
Qed.

(** X7: [is_x_com_open_mac] asks the browsers in the order Safari, Google
    Chrome, Arc and stops at the first one whose script prints [true]: it
    reports that browser, and the browsers after it are never asked. *)
Theorem x_com_scan_first_hit (d : detector) (o : oracle) (pre post : list string)
    (b : string) (rc : Z) (out err : string) :
  script_browsers = pre ++ b :: post ->
  Forall (fun x => negative_query (o (AllTabs x)) = true) pre ->
  o (AllTabs b) = Completed rc out err ->
  String.eqb (PyStr.strip out) "true" = true ->
  is_x_com_open_mac d o = (map AllTabs (pre ++ [b]), Ret (true, Some b)).
Proof.
  intros Hs Hn Ho Ht. unfold is_x_com_open_mac.
  rewrite Hs, (scan_skip_negative pre (b :: post) o Hn), scan_browsers_cons, Ho, Ht.
  rewrite map_app; reflexivity.
Qed.

Lemma x_com_scan_first_hit_witness :
  let o := fun sc => match sc with
           | AllTabs x =>
               if String.eqb x "Safari" then Raised TimeoutExpired
               else if String.eqb x "Google Chrome"
               then Completed 0 ("true" ++ PyStr.newline)%string EmptyString
               else Completed 0 "false" EmptyString
           | _ => Raised OSError
           end in
  script_browsers = ["Safari"%string] ++ "Google Chrome"%string :: ["Arc"%string] /\
  Forall (fun x => negative_query (o (AllTabs x)) = true) ["Safari"%string] /\
  o (AllTabs "Google Chrome") = Completed 0 ("true" ++ PyStr.newline)%string EmptyString /\
  String.eqb (PyStr.strip ("true" ++ PyStr.newline)) "true" = true /\
  is_x_com_open_mac (mk_detector "Darwin") o =
    (map AllTabs (["Safari"%string] ++ ["Google Chrome"%string]),
     Ret (true, Some "Google Chrome"%string)).
Proof.
  intros o.
  assert (H1 : script_browsers = ["Safari"%string] ++ "Google Chrome"%string :: ["Arc"%string])
    by reflexivity.
  assert (H2 : Forall (fun x => negative_query (o (AllTabs x)) = true) ["Safari"%string])
    by (constructor; [reflexivity | constructor]).
  assert (H3 : o (AllTabs "Google Chrome") =
               Completed 0 ("true" ++ PyStr.newline)%string EmptyString) by reflexivity.
  assert (H4 : String.eqb (PyStr.strip ("true" ++ PyStr.newline)) "true" = true)
    by reflexivity.
  split; [exact H1 | split; [exact H2 | split; [exact H3 | split; [exact H4 |
    exact (x_com_scan_first_hit (mk_detector "Darwin") o _ _ _ _ _ _ H1 H2 H3 H4)]]]].
Defined.

(** X8: an exception other than [TimeoutExpired] / [CalledProcessError]
    (an [OSError] when [osascript] cannot be run) from a browser's query
    is not caught by [is_x_com_open_mac]: it escapes to the caller, and
    the browsers after that one are never asked. *)
Theorem x_com_scan_error_escapes (d : detector) (o : oracle) (pre post : list string)
    (b : string) (e : exn) :
  script_browsers = pre ++ b :: post ->
  Forall (fun x => negative_query (o (AllTabs x)) = true) pre ->
  o (AllTabs b) = Raised e -> timeout_or_cpe e = false ->
  is_x_com_open_mac d o = (map AllTabs (pre ++ [b]), Raise e).
Proof.
  intros Hs Hn Ho Ht. unfold is_x_com_open_mac.
  rewrite Hs, (scan_skip_negative pre (b :: post) o Hn), scan_browsers_cons, Ho, Ht.
  rewrite map_app; reflexivity.
Qed.

Lemma x_com_scan_error_escapes_witness :
  let o := fun sc => match sc with
           | AllTabs x =>
               if String.eqb x "Safari" then Completed 0 "false" EmptyString
               else Raised OSError
           | _ => Raised TimeoutExpired
           end in
  script_browsers = ["Safari"%string] ++ "Google Chrome"%string :: ["Arc"%string] /\
  Forall (fun x => negative_query (o (AllTabs x)) = true) ["Safari"%string] /\
  o (AllTabs "Google Chrome") = Raised OSError /\ timeout_or_cpe OSError = false /\
  is_x_com_open_mac (mk_detector "Darwin") o =
    (map AllTabs (["Safari"%string] ++ ["Google Chrome"%string]), Raise OSError).
Proof.
  intros o.
  assert (H1 : script_browsers = ["Safari"%string] ++ "Google Chrome"%string :: ["Arc"%string])
    by reflexivity.
  assert (H2 : Forall (fun x => negative_query (o (AllTabs x)) = true) ["Safari"%string])
    by (constructor; [reflexivity | constructor]).
  assert (H3 : o (AllTabs "Google Chrome") = Raised OSError) by reflexivity.
  assert (H4 : timeout_or_cpe OSError = false) by reflexivity.
  split; [exact H1 | split; [exact H2 | split; [exact H3 | split; [exact H4 |
    exact (x_com_scan_error_escapes (mk_detector "Darwin") o _ _ _ _ H1 H2 H3 H4)]]]].
Defined.

(** X9: on macOS, when the frontmost-application query fails in any way
    (a nonzero return code, an empty name, or any exception, [OSError]
    included), [get_frontmost_application] swallows the failure and
    [is_browser_frontmost_with_x_com] answers [(False, None)] after that
    single query. *)
Theorem frontmost_query_failure_inactive (d : detector) (o : oracle) :
  darwin d = true ->
  match o FrontApp with
  | Completed rc out _ => (rc <> 0)%Z \/ PyStr.strip out = EmptyString
  | Raised _ => True
  end ->
  is_browser_frontmost_with_x_com d o = ([FrontApp], Ret (false, None)).
Proof.
  intros Hd Hf. unfold is_browser_frontmost_with_x_com; rewrite Hd.
  cbv beta iota delta [negb].
  unfold Browser.bind at 1; rewrite (frontmost_app_query d o Hd).
  destruct (o FrontApp) as [rc out err|e]; cbv beta iota.
  - destruct (Z.eqb_spec rc 0) as [->|Hne].
    + destruct Hf as [Hf|Hf]; [congruence|]. rewrite Hf. reflexivity.
    + reflexivity.
  - reflexivity.
Qed.

Lemma frontmost_query_failure_inactive_witness :
  let o := fun sc => match sc with
           | FrontApp => Completed 1 EmptyString "execution error"
           | _ => Completed 0 "true" EmptyString
           end in
  darwin (mk_detector "Darwin") = true /\
  (1 <> 0 \/ PyStr.strip EmptyString = EmptyString)%Z /\
  is_browser_frontmost_with_x_com (mk_detector "Darwin") o = ([FrontApp], Ret (false, None)).
Proof.
  intros o.
  assert (H1 : darwin (mk_detector "Darwin") = true) by reflexivity.
  assert (H2 : (1 <> 0 \/ PyStr.strip EmptyString = EmptyString)%Z) by (left; discriminate).
  split; [exact H1 | split; [exact H2 |
    exact (frontmost_query_failure_inactive (mk_detector "Darwin") o H1 H2)]].
Defined.

(** X11: on macOS, when the frontmost application is none of the eight
    known browsers, [is_browser_frontmost_with_x_com] answers
    [(False, None)] without running any further query. *)
Theorem non_browser_frontmost_inactive (d : detector) (o : oracle) (out err : string) :
  darwin d = true -> o FrontApp = Completed 0 out err ->
  find (fun b => PyStr.contains (PyStr.lower b) (PyStr.lower (PyStr.strip out)))
       browser_apps = None ->
  is_browser_frontmost_with_x_com d o = ([FrontApp], Ret (false, None)).
Proof.
  intros Hd Ho Hf. rewrite (frontmost_after_app d o out err Hd Ho). cbv zeta.
  rewrite Hf. destruct (String.eqb _ _); reflexivity.
Qed.

Lemma non_browser_frontmost_inactive_witness :
  let o := fun sc => match sc with
           | FrontApp => Completed 0 ("Finder" ++ PyStr.newline)%string EmptyString
           | _ => Completed 0 "true" EmptyString
           end in
  darwin (mk_detector "Darwin") = true /\
  o FrontApp = Completed 0 ("Finder" ++ PyStr.newline)%string EmptyString /\
  find (fun b => PyStr.contains (PyStr.lower b)
                   (PyStr.lower (PyStr.strip ("Finder" ++ PyStr.newline))))
       browser_apps = None /\
  is_browser_frontmost_with_x_com (mk_detector "Darwin") o = ([FrontApp], Ret (false, None)).
Proof.
  intros o. assert (H1 : darwin (mk_detector "Darwin") = true) by reflexivity.
  assert (H2 : o FrontApp = Completed 0 ("Finder" ++ PyStr.newline)%string EmptyString)
    by reflexivity.
  assert (H3 : find (fun b => PyStr.contains (PyStr.lower b)
                     (PyStr.lower (PyStr.strip ("Finder" ++ PyStr.newline))))
                browser_apps = None) by (vm_compute; reflexivity).
  split; [exact H1 | split; [exact H2 | split; [exact H3 |
    exact (non_browser_frontmost_inactive (mk_detector "Darwin") o _ _ H1 H2 H3)]]].
Defined.

(** X12: for a frontmost browser without a tab script (Firefox, Microsoft
    Edge, Brave Browser, Opera, Vivaldi), [is_browser_frontmost_with_x_com]
    decides from the window title alone, with the frontmost-application
    and window-title queries as the only ones run. *)
Theorem unscripted_browser_by_title (d : detector) (o : oracle) (out err fb : string) :
  darwin d = true -> o FrontApp = Completed 0 out err ->
  find (fun b => PyStr.contains (PyStr.lower b) (PyStr.lower (PyStr.strip out)))
       browser_apps = Some fb ->
  find (fun n => PyStr.contains (PyStr.lower n) (PyStr.lower fb)) script_browsers = None ->
  is_browser_frontmost_with_x_com d o =
    ([FrontApp; FrontTitle],
     Ret (x_title (match o FrontTitle with
                   | Completed _ t _ => PyStr.strip t
                   | Raised _ => EmptyString
                   end), Some fb)).
Proof.
  intros Hd Ho Hf Hs. rewrite (frontmost_after_app d o out err Hd Ho). cbv zeta.
  destruct (String.eqb (PyStr.strip out) EmptyString) eqn:He.
  - exfalso. apply String.eqb_eq in He. rewrite He in Hf. vm_compute in Hf. discriminate Hf.
  - rewrite Hf, Hs. unfold Browser.bind; cbv beta. rewrite title_query. reflexivity.
Qed.

Lemma unscripted_browser_by_title_witness :
  let o := fun sc => match sc with
           | FrontApp => Completed 0 "Firefox" EmptyString
           | FrontTitle => Completed 0 "Elon Musk (@elonmusk) / X" EmptyString
           | _ => Raised OSError
           end in
  darwin (mk_detector "Darwin") = true /\
  o FrontApp = Completed 0 "Firefox" EmptyString /\
  find (fun b => PyStr.contains (PyStr.lower b) (PyStr.lower (PyStr.strip "Firefox")))
       browser_apps = Some "Firefox"%string /\
  find (fun n => PyStr.contains (PyStr.lower n) (PyStr.lower "Firefox")) script_browsers
    = None /\
  is_browser_frontmost_with_x_com (mk_detector "Darwin") o =
    ([FrontApp; FrontTitle],
     Ret (x_title (PyStr.strip "Elon Musk (@elonmusk) / X"), Some "Firefox"%string)).
Proof.
  intros o. assert (H1 : darwin (mk_detector "Darwin") = true) by reflexivity.
  assert (H2 : o FrontApp = Completed 0 "Firefox" EmptyString) by reflexivity.
  assert (H3 : find (fun b => PyStr.contains (PyStr.lower b)
                       (PyStr.lower (PyStr.strip "Firefox"))) browser_apps
               = Some "Firefox"%string) by (vm_compute; reflexivity).
  assert (H4 : find (fun n => PyStr.contains (PyStr.lower n) (PyStr.lower "Firefox"))
                 script_browsers = None) by (vm_compute; reflexivity).
  split; [exact H1 | split; [exact H2 | split; [exact H3 | split; [exact H4 |
    exact (unscripted_browser_by_title (mk_detector "Darwin") o _ _ _ H1 H2 H3 H4)]]]].
Defined.

(** X13: browsers are recognised by substring: any frontmost application
    whose lower-cased name contains "arc" (and neither "safari" nor
    "google chrome"), such as "Archive Utility" or "Research", is taken
    for the Arc browser, and Arc's tab script is run. *)
Theorem arc_substring_match (d : detector) (o : oracle) (out err : string) :
  let app := PyStr.lower (PyStr.strip out) in
  darwin d = true -> o FrontApp = Completed 0 out err ->
  PyStr.contains "safari" app = false -> PyStr.contains "google chrome" app = false ->
  PyStr.contains "arc" app = true ->
  fst (is_browser_frontmost_with_x_com d o) = [FrontApp; FrontTabs "Arc"] /\
  forall v, snd (is_browser_frontmost_with_x_com d o) = Ret v -> snd v = Some "Arc"%string.
Proof.
  intros app Hd Ho H1 H2 H3. unfold app in H1, H2, H3.
  rewrite (frontmost_after_app d o out err Hd Ho). cbv zeta.
  destruct (String.eqb (PyStr.strip out) EmptyString) eqn:He.
  - exfalso. apply String.eqb_eq in He. rewrite He in H3. vm_compute in H3. discriminate H3.
  - assert (Hf : find (fun b => PyStr.contains (PyStr.lower b)
                                  (PyStr.lower (PyStr.strip out))) browser_apps
                 = Some "Arc"%string).
    { unfold browser_apps; cbn [find].
      change (PyStr.lower "Safari") with "safari"%string.
      change (PyStr.lower "Google Chrome") with "google chrome"%string.
      change (PyStr.lower "Arc") with "arc"%string.
      rewrite H1, H2, H3; reflexivity. }
    assert (Hs : find (fun n => PyStr.contains (PyStr.lower n) (PyStr.lower "Arc"))
                   script_browsers = Some "Arc"%string) by reflexivity.
    rewrite Hf, Hs. unfold catch, Browser.bind, osascript, Browser.ret, raise.
    cbn -[PyStr.strip].
    destruct (o (FrontTabs "Arc")) as [rc out' err'|e]; cbn -[PyStr.strip].
    + split; [reflexivity|]. intros v Hv; inversion Hv; reflexivity.
    + destruct (timeout_or_cpe e); cbn -[PyStr.strip]; split; try reflexivity;
        intros v Hv; inversion Hv; reflexivity.
Qed.

Lemma arc_substring_match_witness :
  let o := fun sc => match sc with
           | FrontApp => Completed 0 "Archive Utility" EmptyString
           | _ => Completed 0 "false" EmptyString
           end in
  let app := PyStr.lower (PyStr.strip "Archive Utility") in
  darwin (mk_detector "Darwin") = true /\
  o FrontApp = Completed 0 "Archive Utility" EmptyString /\
  PyStr.contains "safari" app = false /\ PyStr.contains "google chrome" app = false /\
  PyStr.contains "arc" app = true /\
  fst (is_browser_frontmost_with_x_com (mk_detector "Darwin") o) =
    [FrontApp; FrontTabs "Arc"] /\
  forall v, snd (is_browser_frontmost_with_x_com (mk_detector "Darwin") o) = Ret v ->
    snd v = Some "Arc"%string.
Proof.
  intros o app. assert (H1 : darwin (mk_detector "Darwin") = true) by reflexivity.
  assert (H2 : o FrontApp = Completed 0 "Archive Utility" EmptyString) by reflexivity.
  assert (H3 : PyStr.contains "safari" app = false) by (vm_compute; reflexivity).
  assert (H4 : PyStr.contains "google chrome" app = false) by (vm_compute; reflexivity).
  assert (H5 : PyStr.contains "arc" app = true) by (vm_compute; reflexivity).
  split; [exact H1 | split; [exact H2 | split; [exact H3 | split; [exact H4 |
    split; [exact H5 |
    exact (arc_substring_match (mk_detector "Darwin") o _ _ H1 H2 H3 H4 H5)]]]]].
Defined.

End BrowserExtras.

(** ** Further properties of [check_mac_permissions] and [main]. *)
Module MainExtras.
Import Main.

Lemma check_mac_permissions_eq (e : env) :
  check_mac_permissions e =
  Ret (negb (String.eqb (platform_system e) "Darwin") || listener_starts e).
Proof.
  unfold check_mac_permissions.
  destruct (String.eqb _ _), (listener_starts e); simpl; try reflexivity.
  destruct (dialog e) as [[|]|]; reflexivity.
Qed.

(** X14: [check_mac_permissions] never raises, not even the [SystemExit]
    of [sys.exit(0)] after Cancel (the bare [except:] around the dialog
    catches it), and its answer does not depend on the dialog: [True]
    off macOS or when the test listener starts, [False] otherwise. *)
Theorem check_permissions_ignores_dialog (e : env) (answer : option bool) :
  check_mac_permissions (mk_env (platform_system e) (listener_starts e) answer) =
  check_mac_permissions e /\
  check_mac_permissions e =
  Ret (negb (String.eqb (platform_system e) "Darwin") || listener_starts e).
Proof. rewrite !check_mac_permissions_eq; split; reflexivity. Qed.

(** X15: [main] never ends the process through [sys.exit]: it enters
    [start_monitoring] exactly when the system is not macOS or the test
    listener starts, and otherwise returns after the permission hint. *)
Theorem main_outcomes (e : env) :
  (main e = Monitoring <->
   platform_system e <> "Darwin"%string \/ listener_starts e = true) /\
  (main e = Returned <->
   platform_system e = "Darwin"%string /\ listener_starts e = false) /\
  (forall c, main e <> Exited c).
Proof.
  unfold main; rewrite check_mac_permissions_eq.
  destruct (String.eqb_spec (platform_system e) "Darwin") as [Hs|Hs],
    (listener_starts e); simpl;
    intuition (try discriminate; try congruence).
Qed.

End MainExtras.
